(** * Google Play Store dashboard: cleaning pipeline and filter engine

    Shallow embedding of [dashboard_google_play.py].  The script reads a CSV
    into a pandas DataFrame, cleans it in [load_and_transform_data], narrows
    it with the sidebar widgets and prints a handful of statistics.

    Modelling conventions.
    - A DataFrame is the list of its rows, in index order.
    - A float64 cell is [NaN], an infinity, or an exact rational: numerals
      are read exactly, so binary rounding and overflow are not represented.
      A rational stands for the float64 its decimal numeral denotes, which
      is faithful for numerals of at most 15 digits and for comparisons
      between them; statements about parsed values carry that bound.  Sums
      and means are exact here while pandas rounds them, so their values
      are only used on the empty column.
    - An object (str) cell that may be missing is an [option string]; pandas
      stores the missing cell as NaN and [astype(str)] prints it as "nan".
      A text cell holds the field as written, which is what [read_csv]
      delivers for a column with some field that is not a number.
    - The typed rows describe a CSV whose Rating column is numeric and
      whose App and Category columns have no missing cell; the table whose
      Rating column is text is modelled apart ([RawTextRow]).
    - The pandas primitives the script calls ([to_numeric], [str.replace],
      [drop_duplicates], [dropna], [value_counts], [mean], [sum], [max]) are
      modelled in [Module pd]; the script itself follows, step by step. *)

From Stdlib Require Import Bool Arith ZArith QArith Qcanon Lia List Permutation.
From Stdlib Require Import Ascii String.
From Stdlib Require Import Sorted Qround Lqa.
Import ListNotations.

Set Implicit Arguments.

(* ------------------------------------------------------------------ *)
(** ** float64 values *)

Inductive float64 : Type :=
| NaN
| NegInf
| Fin (q : Qc)
| PosInf.

Definition Qc_eqb (a b : Qc) : bool := Qeq_bool a b.
Definition Qc_leb (a b : Qc) : bool := Qle_bool a b.
Definition Qc_ltb (a b : Qc) : bool := negb (Qle_bool b a).

(** Structural identity of cells, the one [drop_duplicates] and [isna] use:
    NaN is the same cell as NaN. *)
Definition same_float (a b : float64) : bool :=
  match a, b with
  | NaN, NaN | NegInf, NegInf | PosInf, PosInf => true
  | Fin x, Fin y => Qc_eqb x y
  | _, _ => false
  end.

(** Python's [==], [<=], [<] on floats: every comparison with NaN is False. *)
Definition feq (a b : float64) : bool :=
  match a, b with
  | NaN, _ | _, NaN => false
  | _, _ => same_float a b
  end.

Definition fle (a b : float64) : bool :=
  match a, b with
  | NaN, _ | _, NaN => false
  | NegInf, _ => true
  | _, PosInf => true
  | Fin x, Fin y => Qc_leb x y
  | _, _ => false
  end.

Definition flt (a b : float64) : bool :=
  match a, b with
  | NaN, _ | _, NaN => false
  | PosInf, _ => false
  | _, NegInf => false
  | Fin x, Fin y => Qc_ltb x y
  | _, _ => true
  end.

Definition fge (a b : float64) : bool := fle b a.
Definition fgt (a b : float64) : bool := flt b a.

Definition isna (a : float64) : bool :=
  match a with NaN => true | _ => false end.

(** IEEE addition: opposite infinities cancel to NaN. *)
Definition fadd (a b : float64) : float64 :=
  match a, b with
  | NaN, _ | _, NaN => NaN
  | PosInf, NegInf | NegInf, PosInf => NaN
  | PosInf, _ | _, PosInf => PosInf
  | NegInf, _ | _, NegInf => NegInf
  | Fin x, Fin y => Fin (x + y)
  end.

(** Division of a float by a row count (0/0 is NaN). *)
Definition fdiv_count (a : float64) (n : nat) : float64 :=
  match n with
  | O => match a with Fin _ => NaN | _ => a end
  | S _ =>
      match a with
      | Fin x => Fin (x / Q2Qc (inject_Z (Z.of_nat n)))
      | _ => a
      end
  end.

Definition of_Z (z : Z) : float64 := Fin (Q2Qc (inject_Z z)).

(** [decimal m k] is the number written with mantissa [m] and [k] digits
    after the point: m / 10^k. *)
Definition decimal (m : Z) (k : nat) : float64 :=
  Fin (Q2Qc (m # Z.to_pos (10 ^ Z.of_nat k))).

(* ------------------------------------------------------------------ *)
(** ** pandas primitives *)

Module pd.

(** *** [Series.str.replace(old, new, regex=False)] for a one-character
    pattern: every occurrence is replaced, wherever it stands. *)
Fixpoint str_replace (old : ascii) (new : string) (s : string) : string :=
  match s with
  | EmptyString => EmptyString
  | String c s' =>
      if Ascii.eqb c old then (new ++ str_replace old new s')%string
      else String c (str_replace old new s')
  end.

(** *** [Series.astype(str)]: a missing cell prints as "nan". *)
Definition astype_str (c : option string) : string :=
  match c with
  | Some s => s
  | None => "nan"%string
  end.

(** *** [to_numeric(errors='coerce')] on a str cell.

    pandas hands the text to its tokenizer's strtod: optional blanks, an
    optional sign, digits with at most one decimal point (one digit at
    least), an optional exponent, optional blanks, and nothing after.  Text
    that does not fit is retried as a spelling of infinity and otherwise
    coerced to NaN.  The value is read exactly; pandas rounds a numeral of
    more than 15 digits to the nearest float64 and overflows on a very
    large one, which this reading does not show. *)

Definition isspace_ascii (c : ascii) : bool :=
  let n := nat_of_ascii c in
  (n =? 32)%nat || ((9 <=? n)%nat && (n <=? 13)%nat).

Definition isdigit_ascii (c : ascii) : bool :=
  let n := nat_of_ascii c in
  (48 <=? n)%nat && (n <=? 57)%nat.

Definition digit_value (c : ascii) : Z := Z.of_nat (nat_of_ascii c - 48).

Definition toupper_ascii (c : ascii) : ascii :=
  let n := nat_of_ascii c in
  if (97 <=? n)%nat && (n <=? 122)%nat then ascii_of_nat (n - 32) else c.

Fixpoint skip_space (s : string) : string :=
  match s with
  | String c s' => if isspace_ascii c then skip_space s' else s
  | EmptyString => s
  end.

(** Reads a run of digits: accumulated value, number of digits read, rest. *)
Fixpoint scan_digits (acc : Z) (n : nat) (s : string) : Z * nat * string :=
  match s with
  | String c s' =>
      if isdigit_ascii c
      then scan_digits (10 * acc + digit_value c) (S n) s'
      else (acc, n, s)
  | EmptyString => (acc, n, s)
  end.

Definition scan_sign (s : string) : bool * string :=
  match s with
  | String "-" s' => (true, s')
  | String "+" s' => (false, s')
  | _ => (false, s)
  end.

(** m * 10^e as an exact rational. *)
Definition scale10 (m e : Z) : Q :=
  if (0 <=? e)%Z then inject_Z (m * 10 ^ e)
  else m # Z.to_pos (10 ^ (- e)).

(** The exponent part.  With no digit after the marker the marker is given
    back, so the caller sees unconsumed text. *)
Definition scan_exponent (s : string) : Z * string :=
  match s with
  | String c s1 =>
      if Ascii.eqb (toupper_ascii c) "E" then
        let '(neg, s2) := scan_sign s1 in
        let '(n, k, s3) := scan_digits 0 0 s2 in
        match k with
        | O => (0%Z, s)
        | S _ => ((if neg then - n else n)%Z, s3)
        end
      else (0%Z, s)
  | EmptyString => (0%Z, s)
  end.

(** [xstrtod]: the value read and the text left over, or [None] when no
    digit was found. *)
Definition xstrtod (s : string) : option (Q * string) :=
  let s0 := skip_space s in
  let '(neg, s1) := scan_sign s0 in
  let '(m1, n1, s2) := scan_digits 0 0 s1 in
  let '(m2, n2, s3) :=
    match s2 with
    | String "." s2' => scan_digits m1 0 s2'
    | _ => (m1, O, s2)
    end in
  match (n1 + n2)%nat with
  | O => None
  | S _ =>
      let m := (if neg then - m2 else m2)%Z in
      let '(e, s4) := scan_exponent s3 in
      Some (scale10 m (e - Z.of_nat n2), skip_space s4)
  end.

Definition to_double (s : string) : option Q :=
  match xstrtod s with
  | Some (q, EmptyString) => Some q
  | _ => None
  end.

Fixpoint upper (s : string) : string :=
  match s with
  | EmptyString => EmptyString
  | String c s' => String (toupper_ascii c) (upper s')
  end.

Definition floatify (s : string) : option float64 :=
  match to_double s with
  | Some q => Some (Fin (Q2Qc q))
  | None =>
      let u := upper s in
      if (u =? "INF")%string || (u =? "+INF")%string
         || (u =? "INFINITY")%string || (u =? "+INFINITY")%string
      then Some PosInf
      else if (u =? "-INF")%string || (u =? "-INFINITY")%string
      then Some NegInf
      else None
  end.

Definition to_numeric (s : string) : float64 :=
  match floatify s with
  | Some v => v
  | None => NaN
  end.

(** [to_numeric] on an object column that was not cast to str first: a
    missing cell stays NaN. *)
Definition to_numeric_cell (c : option string) : float64 :=
  match c with
  | Some s => to_numeric s
  | None => NaN
  end.

(** *** [df[mask]]: the rows whose mask entry is True, in order. *)
Fixpoint boolean_index (A : Type) (df : list A) (mask : list bool) : list A :=
  match df, mask with
  | r :: df', b :: mask' =>
      if b then r :: boolean_index df' mask' else boolean_index df' mask'
  | _, _ => []
  end.

(** *** [DataFrame.duplicated()] and [drop_duplicates()], keep='first':
    a row is marked when an earlier row holds the same cells. *)
Section Duplicates.
Variable A : Type.
Variable same : A -> A -> bool.

Fixpoint duplicated_from (seen : list A) (df : list A) : list bool :=
  match df with
  | [] => []
  | r :: df' => existsb (same r) seen :: duplicated_from (r :: seen) df'
  end.

Definition duplicated (df : list A) : list bool := duplicated_from [] df.

Definition drop_duplicates (df : list A) : list A :=
  boolean_index df (map negb (duplicated df)).
End Duplicates.

(** *** Reductions of a float column; NaN entries are skipped.  The sum
    and the mean are exact: pandas rounds a float64 sum and wraps an int64
    one, so they stand for the code's values only where neither happens,
    as on the empty column. *)
Definition notna_values (col : list float64) : list float64 :=
  filter (fun v => negb (isna v)) col.

Definition sum (col : list float64) : float64 :=
  fold_left fadd (notna_values col) (of_Z 0).

Definition mean (col : list float64) : float64 :=
  let vs := notna_values col in
  fdiv_count (fold_left fadd vs (of_Z 0)) (List.length vs).

Definition fmax2 (a b : float64) : float64 := if flt a b then b else a.

Definition max (col : list float64) : float64 :=
  match notna_values col with
  | [] => NaN
  | v :: vs => fold_left fmax2 vs v
  end.

(** *** [Series.value_counts()]: one entry per distinct label, tallied in
    order of first appearance, then sorted by decreasing count. *)
Fixpoint tally_add (k : string) (acc : list (string * nat))
  : list (string * nat) :=
  match acc with
  | [] => [(k, 1%nat)]
  | (k', n) :: acc' =>
      if (k' =? k)%string then (k', S n) :: acc'
      else (k', n) :: tally_add k acc'
  end.

Definition tally (col : list string) : list (string * nat) :=
  fold_left (fun acc k => tally_add k acc) col [].

(** Modelled from the spec: the order [value_counts] gives to labels of
    equal count.  pandas sorts the tally by decreasing count and documents
    nothing about ties; the specification has them keep their order of first
    appearance, which is a stable sort, written here as an insertion sort. *)
Fixpoint insert_desc (e : string * nat) (sorted : list (string * nat))
  : list (string * nat) :=
  match sorted with
  | [] => [e]
  | e' :: rest =>
      if (snd e' <=? snd e)%nat then e :: sorted
      else e' :: insert_desc e rest
  end.

Fixpoint sort_desc (l : list (string * nat)) : list (string * nat) :=
  match l with
  | [] => []
  | e :: l' => insert_desc e (sort_desc l')
  end.

Definition value_counts (col : list string) : list (string * nat) :=
  sort_desc (tally col).

(** *** Exceptions, and positional access [.index[0]] / [.iloc[0]]. *)
Inductive exn : Type := IndexError.

Inductive result (A : Type) : Type :=
| Ok (a : A)
| Raise (e : exn).

Arguments Ok {A} a.
Arguments Raise {A} e.

Definition bind (A B : Type) (m : result A) (k : A -> result B) : result B :=
  match m with
  | Ok a => k a
  | Raise e => Raise e
  end.

Definition iloc0 (A : Type) (l : list A) : result A :=
  match l with
  | x :: _ => Ok x
  | [] => Raise IndexError
  end.

End pd.

Notation "x <- m ;; k" := (pd.bind m (fun x => k))
  (at level 61, m at next level, right associativity).

(* ------------------------------------------------------------------ *)
(** ** The table *)

(** A row of the CSV as [read_csv] delivers it.  [App] and [Category] are
    str columns without missing cells, [Rating] is a float column (an empty
    field reads as NaN; a Rating column holding other text is the subject
    of [RawTextRow]), the remaining inspected columns hold text or are
    missing, and [raw_other] carries the columns the script never looks at.
    A column in which every field is a number is delivered as numbers, not
    text: two such cells are then the same cell when they are the same
    number, even if written differently. *)
Record RawRow : Type := {
  raw_App : string;
  raw_Category : string;
  raw_Rating : float64;
  raw_Reviews : option string;
  raw_Size : option string;
  raw_Installs : option string;
  raw_Type : option string;
  raw_Price : option string;
  raw_other : list (option string)
}.

(** A row after [load_and_transform_data].  [Size] is [None] when the CSV
    has no Size column; [Type_] is the column the script calls Type. *)
Record Row : Type := {
  App : string;
  Category : string;
  Rating : float64;
  Reviews : float64;
  Size : option float64;
  Installs : float64;
  Type_ : string;
  Price : float64;
  other : list (option string)
}.

Definition same_cell (a b : option string) : bool :=
  match a, b with
  | Some x, Some y => (x =? y)%string
  | None, None => true
  | _, _ => false
  end.

Fixpoint same_cells (a b : list (option string)) : bool :=
  match a, b with
  | [], [] => true
  | x :: a', y :: b' => same_cell x y && same_cells a' b'
  | _, _ => false
  end.

Definition same_row (a b : RawRow) : bool :=
  (raw_App a =? raw_App b)%string
  && (raw_Category a =? raw_Category b)%string
  && same_float (raw_Rating a) (raw_Rating b)
  && same_cell (raw_Reviews a) (raw_Reviews b)
  && same_cell (raw_Size a) (raw_Size b)
  && same_cell (raw_Installs a) (raw_Installs b)
  && same_cell (raw_Type a) (raw_Type b)
  && same_cell (raw_Price a) (raw_Price b)
  && same_cells (raw_other a) (raw_other b).

(* ------------------------------------------------------------------ *)
(** ** [load_and_transform_data] *)

(** Step 2: Installs. *)
Definition parse_installs (c : option string) : float64 :=
  let s := pd.astype_str c in
  let s := pd.str_replace "+" "" s in
  let s := pd.str_replace "," "" s in
  pd.to_numeric s.

(** Step 3: Price. *)
Definition parse_price (c : option string) : float64 :=
  let s := pd.astype_str c in
  let s := pd.str_replace "$" "" s in
  pd.to_numeric s.

(** Step 5: Type, from the parsed price. *)
Definition derive_type (x : float64) : string :=
  if fgt x (of_Z 0) then "Paid"%string else "Free"%string.

(** Step 6: Size. *)
Definition parse_size (c : option string) : float64 :=
  let s := pd.astype_str c in
  let s := pd.str_replace "M" "" s in
  let s := pd.str_replace "k" "" s in
  pd.to_numeric s.

(** Steps 2 to 6 on one row; [has_Size] is ['Size' in df.columns]. *)
Definition transform_row (has_Size : bool) (r : RawRow) : Row :=
  let installs := parse_installs (raw_Installs r) in
  let price := parse_price (raw_Price r) in
  let reviews := pd.to_numeric_cell (raw_Reviews r) in
  {| App := raw_App r;
     Category := raw_Category r;
     Rating := raw_Rating r;
     Reviews := reviews;
     Size := if has_Size then Some (parse_size (raw_Size r)) else None;
     Installs := installs;
     Type_ := derive_type price;
     Price := price;
     other := raw_other r |}.

(** Step 7: [dropna(subset=['Installs', 'Rating', 'Price'])]. *)
Definition complete (r : Row) : bool :=
  negb (isna (Installs r)) && negb (isna (Rating r)) && negb (isna (Price r)).

Definition dropna (df : list Row) : list Row :=
  pd.boolean_index df (map complete df).

Definition load_and_transform_data (has_Size : bool) (csv : list RawRow)
  : list Row :=
  let df := pd.drop_duplicates same_row csv in
  let df := map (transform_row has_Size) df in
  dropna df.

(* ------------------------------------------------------------------ *)
(** ** Sidebar widgets and the filtered table *)

Record Widgets : Type := {
  selected_category : string;
  app_type : string;
  price_range : Qc * Qc;
  rating_range : Qc * Qc;
  installs_range : Z * Z
}.

Definition mask_category (w : Widgets) (r : Row) : bool :=
  (Category r =? selected_category w)%string.

Definition mask_type (w : Widgets) (r : Row) : bool :=
  (Type_ r =? app_type w)%string.

Definition mask_ranges (w : Widgets) (r : Row) : bool :=
  fge (Price r) (Fin (fst (price_range w)))
  && fle (Price r) (Fin (snd (price_range w)))
  && fge (Rating r) (Fin (fst (rating_range w)))
  && fle (Rating r) (Fin (snd (rating_range w)))
  && fge (Installs r) (of_Z (fst (installs_range w)))
  && fle (Installs r) (of_Z (snd (installs_range w))).

Definition apply_filters (w : Widgets) (df : list Row) : list Row :=
  let filtered_df := df in
  let filtered_df :=
    if negb (selected_category w =? "Todas")%string
    then pd.boolean_index filtered_df (map (mask_category w) filtered_df)
    else filtered_df in
  let filtered_df :=
    if negb (app_type w =? "Todos")%string
    then pd.boolean_index filtered_df (map (mask_type w) filtered_df)
    else filtered_df in
  pd.boolean_index filtered_df (map (mask_ranges w) filtered_df).

(* ------------------------------------------------------------------ *)
(** ** Statistics over the filtered table *)

Definition total_apps (filtered_df : list Row) : nat := List.length filtered_df.

Definition avg_rating (filtered_df : list Row) : float64 :=
  pd.mean (map Rating filtered_df).

Definition total_installs (filtered_df : list Row) : float64 :=
  pd.sum (map Installs filtered_df).

Definition paid_apps (filtered_df : list Row) : nat :=
  List.length (pd.boolean_index filtered_df
            (map (fun r => (Type_ r =? "Paid")%string) filtered_df)).

(** The rows of the [Estatisticas Detalhadas] block. *)
Definition most_expensive (filtered_df : list Row) : list Row :=
  let m := pd.max (map Price filtered_df) in
  pd.boolean_index filtered_df (map (fun r => feq (Price r) m) filtered_df).

Definition best_rated (filtered_df : list Row) : list Row :=
  let m := pd.max (map Rating filtered_df) in
  pd.boolean_index filtered_df (map (fun r => feq (Rating r) m) filtered_df).

(** What the second and third columns of the block write. *)
Inductive app_line : Type :=
| AppLine (app : string) (value : float64)
| NoPaidApp      (* "Nenhum app pago" *)
| NoRatedApp.    (* "Nenhum app com rating" *)

Record Detailed : Type := {
  top_category : string;
  expensive_line : app_line;
  rated_line : app_line
}.

Definition top_category_of (filtered_df : list Row) : pd.result string :=
  e <- pd.iloc0 (pd.value_counts (map Category filtered_df)) ;;
  pd.Ok (fst e).

(** The block writes nothing ([None]) when the filtered table is empty. *)
Definition detailed_stats (filtered_df : list Row)
  : pd.result (option Detailed) :=
  if (0 <? List.length filtered_df)%nat then
    top <- top_category_of filtered_df ;;
    l2 <- (let rows := most_expensive filtered_df in
           if (0 <? List.length rows)%nat
           then r <- pd.iloc0 rows ;; pd.Ok (AppLine (App r) (Price r))
           else pd.Ok NoPaidApp) ;;
    l3 <- (let rows := best_rated filtered_df in
           if (0 <? List.length rows)%nat
           then r <- pd.iloc0 rows ;; pd.Ok (AppLine (App r) (Rating r))
           else pd.Ok NoRatedApp) ;;
    pd.Ok (Some {| top_category := top;
                   expensive_line := l2;
                   rated_line := l3 |})
  else pd.Ok None.

(** The four metric tiles and the detailed block together. *)
Record Summary : Type := {
  s_total_apps : nat;
  s_avg_rating : float64;
  s_total_installs : float64;
  s_paid_apps : nat;
  s_detailed : pd.result (option Detailed)
}.

Definition summary (filtered_df : list Row) : Summary :=
  {| s_total_apps := total_apps filtered_df;
     s_avg_rating := avg_rating filtered_df;
     s_total_installs := total_installs filtered_df;
     s_paid_apps := paid_apps filtered_df;
     s_detailed := detailed_stats filtered_df |}.

(* ------------------------------------------------------------------ *)
(** ** Python builtins and further pandas primitives *)

(** A stable insertion sort: [before x y] says that [x] may stand before
    [y]; an entry goes in front of the first one it may stand before. *)
Section StableSort.
Variable A : Type.
Variable before : A -> A -> bool.

Fixpoint insert_by (x : A) (l : list A) : list A :=
  match l with
  | [] => [x]
  | y :: l' => if before x y then x :: l else y :: insert_by x l'
  end.

Fixpoint sort_by (l : list A) : list A :=
  match l with
  | [] => []
  | x :: l' => insert_by x (sort_by l')
  end.
End StableSort.

Module py.

(** [min(a, b)]: the second argument wins only when strictly smaller. *)
Definition min2 (a b : float64) : float64 := if flt b a then b else a.

Inductive exn : Type := ValueError | OverflowError.

Inductive raised (A : Type) : Type :=
| Returns (a : A)
| Raises (e : exn).

Arguments Returns {A} a.
Arguments Raises {A} e.

Definition bind (A B : Type) (m : raised A) (k : A -> raised B) : raised B :=
  match m with
  | Returns a => k a
  | Raises e => Raises e
  end.

(** Rounding toward zero. *)
Definition trunc (q : Q) : Z :=
  if Qle_bool 0 q then Qfloor q else Qceiling q.

(** [int(x)] on a float: NaN and the infinities raise. *)
Definition int (x : float64) : raised Z :=
  match x with
  | NaN => Raises ValueError
  | PosInf | NegInf => Raises OverflowError
  | Fin q => Returns (trunc q)
  end.

End py.

Module pdx.

(** [Series.unique()]: the distinct values in order of first appearance. *)
Definition unique (col : list string) : list string :=
  pd.drop_duplicates String.eqb col.

Definition fmin2 (a b : float64) : float64 := if flt b a then b else a.

(** [Series.min()], NaN entries skipped. *)
Definition min (col : list float64) : float64 :=
  match pd.notna_values col with
  | [] => NaN
  | v :: vs => fold_left fmin2 vs v
  end.

(** The order [nlargest] sorts by: larger values first, NaN last. *)
Definition larger_first (a b : float64) : bool := isna b || fle b a.

(** [DataFrame.nlargest(n, column)], keep='first': the first [n] rows of the
    table sorted by decreasing value, rows of equal value in table order. *)
Definition nlargest (A : Type) (n : nat) (key : A -> float64) (df : list A)
  : list A :=
  firstn n (sort_by (fun a b => larger_first (key a) (key b)) df).

(** [.head(n)]. *)
Definition head (A : Type) (n : nat) (l : list A) : list A := firstn n l.

End pdx.

(* ------------------------------------------------------------------ *)
(** ** The sidebar's options and defaults *)

Definition max_price (df : list Row) : float64 := pd.max (map Price df).

(** The price slider's initial value, [(0.0, min(50.0, max_price))]. *)
Definition default_price_range (df : list Row) : float64 * float64 :=
  (of_Z 0, py.min2 (of_Z 50) (max_price df)).

Definition min_installs (df : list Row) : py.raised Z :=
  py.int (pdx.min (map Installs df)).

Definition max_installs (df : list Row) : py.raised Z :=
  py.int (pd.max (map Installs df)).

(** The installs slider's initial value, [(min_installs, max_installs)]. *)
Definition default_installs_range (df : list Row) : py.raised (Z * Z) :=
  py.bind (min_installs df) (fun lo =>
  py.bind (max_installs df) (fun hi =>
  py.Returns (lo, hi))).

(* ------------------------------------------------------------------ *)
(** ** Charts and the dataset box *)

(** The ten categories of the bar chart. *)
Definition category_counts (filtered_df : list Row) : list (string * nat) :=
  pdx.head 10 (pd.value_counts (map Category filtered_df)).

(** The ten apps of the installs chart. *)
Definition top_apps (filtered_df : list Row) : list Row :=
  pdx.nlargest 10 Installs filtered_df.

(** [len(df[df['Type'] == 'Free'])], printed by the loader and shown in the
    dataset box. *)
Definition free_apps (df : list Row) : nat :=
  List.length (pd.boolean_index df
                 (map (fun r => (Type_ r =? "Free")%string) df)).

(* ------------------------------------------------------------------ *)
(** ** The table when the Rating column is text

    [read_csv] reads a column as numbers only when every field of it is a
    number or empty.  One field of other text leaves the whole Rating column
    as text (dtype object): each of its cells is then the field's text, or
    missing.  The loader runs the same steps on such a table: it never
    converts Rating, and [dropna] tests it for a missing cell only. *)
Record RawTextRow : Type := {
  text_App : string;
  text_Category : string;
  text_Rating : option string;
  text_Reviews : option string;
  text_Size : option string;
  text_Installs : option string;
  text_Type : option string;
  text_Price : option string;
  text_other : list (option string)
}.

Record TextRow : Type := {
  tApp : string;
  tCategory : string;
  tRating : option string;
  tReviews : float64;
  tSize : option float64;
  tInstalls : float64;
  tType : string;
  tPrice : float64;
  tother : list (option string)
}.

Definition same_text_row (a b : RawTextRow) : bool :=
  (text_App a =? text_App b)%string
  && (text_Category a =? text_Category b)%string
  && same_cell (text_Rating a) (text_Rating b)
  && same_cell (text_Reviews a) (text_Reviews b)
  && same_cell (text_Size a) (text_Size b)
  && same_cell (text_Installs a) (text_Installs b)
  && same_cell (text_Type a) (text_Type b)
  && same_cell (text_Price a) (text_Price b)
  && same_cells (text_other a) (text_other b).

Definition transform_text_row (has_Size : bool) (r : RawTextRow) : TextRow :=
  let installs := parse_installs (text_Installs r) in
  let price := parse_price (text_Price r) in
  let reviews := pd.to_numeric_cell (text_Reviews r) in
  {| tApp := text_App r;
     tCategory := text_Category r;
     tRating := text_Rating r;
     tReviews := reviews;
     tSize := if has_Size then Some (parse_size (text_Size r)) else None;
     tInstalls := installs;
     tType := derive_type price;
     tPrice := price;
     tother := text_other r |}.

(** [isna] on a cell of a text column: only the missing cell is null. *)
Definition isna_cell (c : option string) : bool :=
  match c with
  | None => true
  | Some _ => false
  end.

Definition complete_text (r : TextRow) : bool :=
  negb (isna (tInstalls r)) && negb (isna_cell (tRating r))
  && negb (isna (tPrice r)).

Definition dropna_text (df : list TextRow) : list TextRow :=
  pd.boolean_index df (map complete_text df).

Definition load_and_transform_data_text (has_Size : bool)
  (csv : list RawTextRow) : list TextRow :=
  let df := pd.drop_duplicates same_text_row csv in
  let df := map (transform_text_row has_Size) df in
  dropna_text df.

(* ------------------------------------------------------------------ *)
(** ** The specification's wording, kept apart from the code *)

(** One filter constraint, as the specification lists them. *)
Inductive constraint : Type :=
| ByCategory (c : string)
| ByType (t : string)
| PriceIn (lo hi : Qc)
| RatingIn (lo hi : Qc)
| InstallsIn (lo hi : Z).

Definition satisfies (c : constraint) (r : Row) : bool :=
  match c with
  | ByCategory x => (Category r =? x)%string
  | ByType t => (Type_ r =? t)%string
  | PriceIn lo hi => fle (Fin lo) (Price r) && fle (Price r) (Fin hi)
  | RatingIn lo hi => fle (Fin lo) (Rating r) && fle (Rating r) (Fin hi)
  | InstallsIn lo hi => fle (of_Z lo) (Installs r) && fle (Installs r) (of_Z hi)
  end.

(** Applying one constraint on its own. *)
Definition select (c : constraint) (df : list Row) : list Row :=
  pd.boolean_index df (map (satisfies c) df).

(** The constraints a widget state specifies; the wildcards specify none. *)
Definition constraints_of (w : Widgets) : list constraint :=
  (if (selected_category w =? "Todas")%string then []
   else [ByCategory (selected_category w)])
  ++ (if (app_type w =? "Todos")%string then [] else [ByType (app_type w)])
  ++ [PriceIn (fst (price_range w)) (snd (price_range w));
      RatingIn (fst (rating_range w)) (snd (rating_range w));
      InstallsIn (fst (installs_range w)) (snd (installs_range w))].

(** The specification's [parse_price]: drop one leading dollar sign, then
    parse. *)
Definition strip_leading (c : ascii) (s : string) : string :=
  match s with
  | String c' s' => if Ascii.eqb c' c then s' else s
  | EmptyString => s
  end.

Definition parse_price_leading (s : string) : float64 :=
  pd.to_numeric (strip_leading "$" s).

(** The specification's [parse_size]: drop one trailing [M] or [k], then
    parse. *)
Fixpoint strip_trailing_unit (s : string) : string :=
  match s with
  | EmptyString => EmptyString
  | String c EmptyString =>
      if Ascii.eqb c "M" || Ascii.eqb c "k" then EmptyString else s
  | String c s' => String c (strip_trailing_unit s')
  end.

Definition parse_size_trailing (s : string) : float64 :=
  pd.to_numeric (strip_trailing_unit s).

(** A list keeps the order of another when it is obtained by deleting
    entries. *)
Inductive Subseq (A : Type) : list A -> list A -> Prop :=
| Subseq_nil : Subseq [] []
| Subseq_keep : forall x l l', Subseq l l' -> Subseq (x :: l) (x :: l')
| Subseq_drop : forall x l l', Subseq l l' -> Subseq l (x :: l').

(** Numerals: a string of ASCII digits and the integer it writes. *)
Fixpoint all_digits (s : string) : bool :=
  match s with
  | EmptyString => true
  | String c s' => pd.isdigit_ascii c && all_digits s'
  end.

Fixpoint digits_value (acc : Z) (s : string) : Z :=
  match s with
  | EmptyString => acc
  | String c s' => digits_value (10 * acc + pd.digit_value c) s'
  end.

(** How many rows of a table carry a category. *)
Definition category_count (c : string) (df : list Row) : nat :=
  List.length (filter (fun r => (Category r =? c)%string) df).

(** Every constraint the widgets specify, at once. *)
Definition matches (w : Widgets) (r : Row) : bool :=
  forallb (fun c => satisfies c r) (constraints_of w).

(** [drop_duplicates] resumed after the rows in [seen]. *)
Definition drop_from (A : Type) (same : A -> A -> bool) (seen df : list A)
  : list A :=
  pd.boolean_index df (map negb (pd.duplicated_from same seen df)).

(** A price strictly above zero. *)
Definition positive (x : float64) : Prop :=
  match x with
  | PosInf => True
  | Fin q => (0 < q)%Qc
  | _ => False
  end.

(** The invariant: Price is a number and Type says whether it is positive. *)
Definition type_consistent (r : Row) : Prop :=
  Price r <> NaN
  /\ (Type_ r = "Paid"%string <-> positive (Price r))
  /\ (Type_ r = "Free"%string <-> ~ positive (Price r)).

(** How many entries of a column carry a label. *)
Definition count_label (k : string) (col : list string) : nat :=
  List.length (filter (String.eqb k) col).

Fixpoint has_digit (s : string) : bool :=
  match s with
  | EmptyString => false
  | String c s' => pd.isdigit_ascii c || has_digit s'
  end.

(** The character does not occur in the string. *)
Fixpoint absent (c : ascii) (s : string) : bool :=
  match s with
  | EmptyString => true
  | String c' s' => negb (Ascii.eqb c' c) && absent c s'
  end.

(** The number of decimal digits a float64 (and an int64) holds as
    written: a numeral of at most this many digits is read without
    rounding, overflow or underflow, so the cell read is the one the
    numeral denotes.  Longer numerals are rounded by pandas and are outside
    what the exact reading of [pd.to_numeric] stands for. *)
Definition float64_digits : nat := 15.

(** The same raw row with another Price cell. *)
Definition set_raw_Price (c : option string) (r : RawRow) : RawRow :=
  {| raw_App := raw_App r;
     raw_Category := raw_Category r;
     raw_Rating := raw_Rating r;
     raw_Reviews := raw_Reviews r;
     raw_Size := raw_Size r;
     raw_Installs := raw_Installs r;
     raw_Type := raw_Type r;
     raw_Price := c;
     raw_other := raw_other r |}.

(** The digits of a text, in order. *)
Fixpoint keep_digits (s : string) : string :=
  match s with
  | EmptyString => EmptyString
  | String c s' =>
      if pd.isdigit_ascii c then String c (keep_digits s') else keep_digits s'
  end.

(** Text made of digits, commas and plus signs only. *)
Fixpoint installs_text (s : string) : bool :=
  match s with
  | EmptyString => true
  | String c s' =>
      (pd.isdigit_ascii c || Ascii.eqb c "," || Ascii.eqb c "+")
      && installs_text s'
  end.

(** [wider w' w]: the widget state [w'] asks for no more than [w] does. *)
Definition wider (w' w : Widgets) : Prop :=
  (selected_category w' = "Todas"%string
   \/ selected_category w' = selected_category w)
  /\ (app_type w' = "Todos"%string \/ app_type w' = app_type w)
  /\ (fst (price_range w') <= fst (price_range w))%Qc
  /\ (snd (price_range w) <= snd (price_range w'))%Qc
  /\ (fst (rating_range w') <= fst (rating_range w))%Qc
  /\ (snd (rating_range w) <= snd (rating_range w'))%Qc
  /\ (fst (installs_range w') <= fst (installs_range w))%Z
  /\ (snd (installs_range w) <= snd (installs_range w'))%Z.

(* ------------------------------------------------------------------ *)
(** ** Sample data *)

Module Sample.

Definition raw (app cat : string) (rating : float64)
  (installs price : string) : RawRow :=
  {| raw_App := app; raw_Category := cat; raw_Rating := rating;
     raw_Reviews := Some "100"%string; raw_Size := Some "19M"%string;
     raw_Installs := Some installs; raw_Type := Some "Free"%string;
     raw_Price := Some price; raw_other := [] |}.

Definition notes : RawRow :=
  raw "Notes" "TOOLS" (decimal 42 1) "10,000+" "$0".

Definition chess : RawRow :=
  raw "Chess" "GAME" (decimal 45 1) "1,000,000+" "$4.99".

Definition ghost : RawRow :=
  raw "Ghost" "GAME" NaN "500+" "0".

Definition csv : list RawRow := [notes; chess; notes; ghost].

Definition everything : Widgets :=
  {| selected_category := "Todas"; app_type := "Todos";
     price_range := (Q2Qc 0, Q2Qc 50);
     rating_range := (Q2Qc 3, Q2Qc 5);
     installs_range := (0%Z, 2000000%Z) |}.

Definition small_apps : Widgets :=
  {| selected_category := "Todas"; app_type := "Todos";
     price_range := (Q2Qc 0, Q2Qc 50);
     rating_range := (Q2Qc 3, Q2Qc 5);
     installs_range := (0%Z, 20000%Z) |}.

Definition mid_apps : Widgets :=
  {| selected_category := "Todas"; app_type := "Todos";
     price_range := (Q2Qc 0, Q2Qc 50);
     rating_range := (Q2Qc 3, Q2Qc 5);
     installs_range := (20000%Z, 100000%Z) |}.

(** A raw row whose rating field is the word "four". *)
Definition worded : RawTextRow :=
  {| text_App := "Quiz"; text_Category := "GAME";
     text_Rating := Some "four"%string;
     text_Reviews := Some "100"%string; text_Size := Some "19M"%string;
     text_Installs := Some "500+"%string; text_Type := Some "Free"%string;
     text_Price := Some "0"%string; text_other := [] |}.

(** Two categories with one selected row each; the first ART row has a
    rating below the range of [everything]. *)
Definition tied : list RawRow :=
  [raw "Sketch" "ART" (decimal 20 1) "100+" "0";
   raw "Reader" "BOOKS" (decimal 40 1) "100+" "0";
   raw "Canvas" "ART" (decimal 40 1) "100+" "0"].

End Sample.

(* ------------------------------------------------------------------ *)
(** ** Facts about float64 cells *)

Lemma Qc_eqb_eq (a b : Qc) : Qc_eqb a b = true <-> a = b.
Proof.
  unfold Qc_eqb. rewrite Qeq_bool_iff. split.
  - apply Qc_is_canon.
  - intros ->. reflexivity.
Qed.

Lemma same_float_eq (a b : float64) : same_float a b = true <-> a = b.
Proof.
  destruct a, b; simpl; try (split; [discriminate | congruence]);
    try (split; reflexivity).
  rewrite Qc_eqb_eq. split; congruence.
Qed.

Lemma same_float_refl (a : float64) : same_float a a = true.
Proof. apply same_float_eq. reflexivity. Qed.

(** Closes goals [a = b] between concrete cells by evaluation. *)
Ltac float_eq := apply same_float_eq; vm_compute; reflexivity.

Lemma isna_false_iff (a : float64) : isna a = false <-> a <> NaN.
Proof. destruct a; simpl; split; congruence. Qed.

Lemma fle_notna_l (a b : float64) : fle a b = true -> a <> NaN.
Proof. destruct a, b; simpl; congruence. Qed.

Lemma fle_notna_r (a b : float64) : fle a b = true -> b <> NaN.
Proof. destruct a, b; simpl; congruence. Qed.

Lemma Qc_ltb_lt (a b : Qc) : Qc_ltb a b = true <-> (a < b)%Qc.
Proof.
  unfold Qc_ltb, Qclt. rewrite negb_true_iff.
  split.
  - intros H. apply Qnot_le_lt. intros Hle.
    apply Qle_bool_iff in Hle. congruence.
  - intros H. destruct (Qle_bool b a) eqn:E; [|reflexivity].
    apply Qle_bool_iff in E. exfalso. exact (Qlt_not_le _ _ H E).
Qed.

Lemma Qc_leb_le (a b : Qc) : Qc_leb a b = true <-> (a <= b)%Qc.
Proof. unfold Qc_leb, Qcle. apply Qle_bool_iff. Qed.

(* ------------------------------------------------------------------ *)
(** ** Facts about boolean indexing *)

Lemma boolean_index_map (A : Type) (p : A -> bool) (df : list A) :
  pd.boolean_index df (map p df) = filter p df.
Proof.
  induction df as [|r df IH]; simpl; [reflexivity|].
  rewrite IH. reflexivity.
Qed.

Lemma filter_twice (A : Type) (p q : A -> bool) (l : list A) :
  filter p (filter q l) = filter (fun x => q x && p x) l.
Proof.
  induction l as [|x l IH]; simpl; [reflexivity|].
  destruct (q x); simpl; [destruct (p x)|]; rewrite IH; reflexivity.
Qed.

Lemma filter_same (A : Type) (p q : A -> bool) (l : list A) :
  (forall x, In x l -> p x = q x) -> filter p l = filter q l.
Proof.
  induction l as [|x l IH]; simpl; intros H; [reflexivity|].
  rewrite (H x (or_introl eq_refl)), IH; auto.
Qed.

Lemma filter_true (A : Type) (p : A -> bool) (l : list A) :
  (forall x, In x l -> p x = true) -> filter p l = l.
Proof.
  induction l as [|x l IH]; simpl; intros H; [reflexivity|].
  rewrite (H x (or_introl eq_refl)), IH; auto.
Qed.

Lemma filter_Subseq (A : Type) (p : A -> bool) (l : list A) :
  Subseq (filter p l) l.
Proof.
  induction l as [|x l IH]; simpl; [constructor|].
  destruct (p x); constructor; exact IH.
Qed.

(** A split of a filtered list comes from a split of the list. *)
Lemma filter_split (A : Type) (p : A -> bool) (l f1 f2 : list A) (x : A) :
  filter p l = f1 ++ x :: f2 ->
  exists l1 l2, l = l1 ++ x :: l2 /\ filter p l1 = f1 /\ filter p l2 = f2
                /\ p x = true.
Proof.
  revert f1. induction l as [|y l IH]; simpl; intros f1 H.
  - destruct f1; discriminate.
  - destruct (p y) eqn:E.
    + destruct f1 as [|z f1]; simpl in H.
      * injection H as -> Hl. exists [], l. simpl. rewrite Hl. auto.
      * injection H as -> Hl. destruct (IH _ Hl) as (l1 & l2 & -> & H1 & H2 & H3).
        exists (z :: l1), l2. simpl. rewrite E, H1. auto.
    + destruct (IH _ H) as (l1 & l2 & -> & H1 & H2 & H3).
      exists (y :: l1), l2. simpl. rewrite E. auto.
Qed.

(* ------------------------------------------------------------------ *)
(** ** Facts about [drop_duplicates] *)

Section DuplicatesFacts.
Variable A : Type.
Variable same : A -> A -> bool.
Hypothesis same_eq : forall x y, same x y = true <-> x = y.

Lemma drop_duplicates_drop_from (df : list A) :
  pd.drop_duplicates same df = drop_from same [] df.
Proof. reflexivity. Qed.

Lemma existsb_same_In (x : A) (l : list A) :
  existsb (same x) l = true <-> In x l.
Proof.
  rewrite existsb_exists. split.
  - intros (y & Hy & E). apply same_eq in E. subst. exact Hy.
  - intros H. exists x. split; [exact H|]. apply same_eq. reflexivity.
Qed.

Lemma existsb_same_not_In (x : A) (l : list A) :
  existsb (same x) l = false <-> ~ In x l.
Proof.
  rewrite <- existsb_same_In. destruct (existsb (same x) l); split;
    congruence.
Qed.

Lemma drop_from_cons (seen : list A) (x : A) (df : list A) :
  drop_from same seen (x :: df) =
  if existsb (same x) seen then drop_from same (x :: seen) df
  else x :: drop_from same (x :: seen) df.
Proof.
  unfold drop_from. simpl. destruct (existsb (same x) seen); reflexivity.
Qed.

Lemma drop_from_In (df seen : list A) (x : A) :
  In x (drop_from same seen df) <-> In x df /\ ~ In x seen.
Proof.
  revert seen. induction df as [|y df IH]; intros seen.
  - simpl. tauto.
  - rewrite drop_from_cons.
    destruct (existsb (same y) seen) eqn:E.
    + apply existsb_same_In in E. rewrite IH. simpl.
      split; [tauto|]. intros [[->|H] Hn]; [contradiction|].
      split; [exact H|]. intros [->|H']; contradiction.
    + apply existsb_same_not_In in E. simpl. rewrite IH. simpl.
      split.
      * intros [->|[H Hn]]; [tauto|]. split; [tauto|]. tauto.
      * intros [[->|H] Hn]; [tauto|].
        destruct (existsb (same y) [x]) eqn:Ex.
        -- apply existsb_same_In in Ex. destruct Ex as [->|[]]. tauto.
        -- apply existsb_same_not_In in Ex. right. split; [exact H|].
           intros [->|H']; [apply Ex; left; reflexivity | contradiction].
Qed.

Lemma drop_from_NoDup (df seen : list A) : NoDup (drop_from same seen df).
Proof.
  revert seen. induction df as [|y df IH]; intros seen.
  - constructor.
  - rewrite drop_from_cons. destruct (existsb (same y) seen); [apply IH|].
    constructor; [|apply IH].
    rewrite drop_from_In. intros [_ H]. apply H. left. reflexivity.
Qed.

Lemma drop_from_Subseq (df seen : list A) : Subseq (drop_from same seen df) df.
Proof.
  revert seen. induction df as [|y df IH]; intros seen.
  - constructor.
  - rewrite drop_from_cons.
    destruct (existsb (same y) seen); constructor; apply IH.
Qed.

(** A duplicate-free table that avoids the rows seen is left as it is. *)
Lemma drop_from_fixed (df seen : list A) :
  NoDup df -> (forall x, In x df -> ~ In x seen) -> drop_from same seen df = df.
Proof.
  revert seen. induction df as [|y df IH]; intros seen Hnd Hdis.
  - reflexivity.
  - rewrite drop_from_cons. inversion Hnd as [|? ? Hy Hnd']; subst.
    assert (E : existsb (same y) seen = false).
    { apply existsb_same_not_In. apply Hdis. left. reflexivity. }
    rewrite E. f_equal. apply IH; [exact Hnd'|].
    intros x Hx [->|Hs]; [contradiction|].
    apply (Hdis x); [right; exact Hx | exact Hs].
Qed.

Lemma drop_from_snoc (df seen : list A) (x : A) :
  drop_from same seen (df ++ [x]) =
  drop_from same seen df
  ++ (if existsb (same x) (df ++ seen) then [] else [x]).
Proof.
  revert seen. induction df as [|y df IH]; intros seen.
  - simpl. rewrite drop_from_cons. unfold drop_from. simpl.
    destruct (existsb (same x) seen); reflexivity.
  - simpl. rewrite !drop_from_cons, IH.
    assert (E : existsb (same x) (df ++ y :: seen)
                = (same x y || existsb (same x) (df ++ seen))).
    { rewrite !existsb_app. simpl.
      destruct (existsb (same x) df), (same x y); reflexivity. }
    rewrite E. destruct (existsb (same y) seen); reflexivity.
Qed.

Lemma drop_duplicates_idempotent (df : list A) :
  pd.drop_duplicates same (pd.drop_duplicates same df)
  = pd.drop_duplicates same df.
Proof.
  rewrite !drop_duplicates_drop_from.
  apply drop_from_fixed; [apply drop_from_NoDup | intros x _ []].
Qed.

Lemma drop_duplicates_snoc_old (df : list A) (x : A) :
  In x df ->
  pd.drop_duplicates same (df ++ [x]) = pd.drop_duplicates same df.
Proof.
  intros H. rewrite !drop_duplicates_drop_from, drop_from_snoc.
  rewrite app_nil_r. apply existsb_same_In in H. rewrite H.
  apply app_nil_r.
Qed.

Lemma drop_duplicates_snoc_new (df : list A) (x : A) :
  ~ In x df ->
  pd.drop_duplicates same (df ++ [x]) = pd.drop_duplicates same df ++ [x].
Proof.
  intros H. rewrite !drop_duplicates_drop_from, drop_from_snoc.
  rewrite app_nil_r. apply existsb_same_not_In in H. rewrite H.
  reflexivity.
Qed.
End DuplicatesFacts.

Lemma same_cell_eq (a b : option string) : same_cell a b = true <-> a = b.
Proof.
  destruct a, b; simpl; try (split; [discriminate | congruence]);
    try (split; reflexivity).
  rewrite String.eqb_eq. split; congruence.
Qed.

Lemma same_cells_eq (a b : list (option string)) :
  same_cells a b = true <-> a = b.
Proof.
  revert b. induction a as [|x a IH]; intros [|y b]; simpl;
    try (split; [discriminate | congruence]); try (split; reflexivity).
  rewrite andb_true_iff, same_cell_eq, IH. split.
  - intros [-> ->]. reflexivity.
  - intros H. injection H as -> ->. auto.
Qed.

Lemma same_row_eq (a b : RawRow) : same_row a b = true <-> a = b.
Proof.
  destruct a, b. unfold same_row. simpl.
  rewrite !andb_true_iff, !String.eqb_eq, same_float_eq, !same_cell_eq,
    same_cells_eq.
  split.
  - intros ((((((((-> & ->) & ->) & ->) & ->) & ->) & ->) & ->) & ->).
    reflexivity.
  - intros H. injection H as -> -> -> -> -> -> -> -> ->. repeat split.
Qed.

(* ------------------------------------------------------------------ *)
(** ** Deduplication *)

(** C9: [drop_duplicates] is idempotent; its result has no repeated row and
    the same rows as the input, in the input's order; a row identical to an
    earlier one is removed and a row seen for the first time is kept where
    it stands. *)
Theorem drop_duplicates_first_occurrence :
  forall csv : list RawRow,
    let dedup := pd.drop_duplicates same_row in
    dedup (dedup csv) = dedup csv
    /\ NoDup (dedup csv)
    /\ (forall r, In r (dedup csv) <-> In r csv)
    /\ Subseq (dedup csv) csv
    /\ (forall r, In r csv -> dedup (csv ++ [r]) = dedup csv)
    /\ (forall r, ~ In r csv -> dedup (csv ++ [r]) = dedup csv ++ [r]).
Proof.
  intros csv dedup. unfold dedup. repeat split.
  - apply drop_duplicates_idempotent, same_row_eq.
  - rewrite drop_duplicates_drop_from.
    apply (@drop_from_NoDup _ _ same_row_eq).
  - rewrite drop_duplicates_drop_from.
    intros H. apply (@drop_from_In _ _ same_row_eq) in H. tauto.
  - rewrite drop_duplicates_drop_from.
    intros H. apply (@drop_from_In _ _ same_row_eq). simpl. tauto.
  - rewrite drop_duplicates_drop_from. apply drop_from_Subseq.
  - intros r H. apply drop_duplicates_snoc_old; [apply same_row_eq | exact H].
  - intros r H. apply drop_duplicates_snoc_new; [apply same_row_eq | exact H].
Qed.

(* ------------------------------------------------------------------ *)
(** ** The filter engine *)

Lemma select_filter (c : constraint) (df : list Row) :
  select c df = filter (satisfies c) df.
Proof. apply boolean_index_map. Qed.

Lemma apply_filters_filter (w : Widgets) (df : list Row) :
  apply_filters w df = filter (matches w) df.
Proof.
  unfold apply_filters, matches, constraints_of.
  rewrite boolean_index_map.
  destruct (selected_category w =? "Todas")%string;
    destruct (app_type w =? "Todos")%string; simpl;
    rewrite ?boolean_index_map, ?filter_twice;
    apply filter_same; intros r _;
    unfold mask_category, mask_type, mask_ranges, fge;
    rewrite ?andb_true_r, ?andb_assoc; reflexivity.
Qed.

Lemma fold_select_filter (cs : list constraint) (df : list Row) :
  fold_left (fun d c => select c d) cs df
  = filter (fun r => forallb (fun c => satisfies c r) cs) df.
Proof.
  revert df. induction cs as [|c cs IH]; intros df; simpl.
  - symmetry. apply filter_true. reflexivity.
  - rewrite IH, select_filter, filter_twice. reflexivity.
Qed.

Lemma forallb_Permutation (A : Type) (p : A -> bool) (l l' : list A) :
  Permutation l l' -> forallb p l = forallb p l'.
Proof.
  intros H. induction H; simpl.
  - reflexivity.
  - rewrite IHPermutation. reflexivity.
  - destruct (p x), (p y); reflexivity.
  - congruence.
Qed.

(** C6: two constraints applied one after the other, in either order, select
    the rows that satisfy both at once; the filtered table holds exactly the
    rows that satisfy every constraint the widgets specify, whatever the
    order the constraints are applied in; filtering twice is filtering
    once. *)
Theorem filtering_is_conjunction :
  forall (df : list Row) (w w' : Widgets) (c1 c2 : constraint),
    select c1 (select c2 df) = select c2 (select c1 df)
    /\ select c1 (select c2 df)
       = filter (fun r => satisfies c1 r && satisfies c2 r) df
    /\ (forall r, In r (apply_filters w df) <->
                  In r df /\ forall c, In c (constraints_of w) ->
                                       satisfies c r = true)
    /\ (forall cs, Permutation cs (constraints_of w) ->
                   fold_left (fun d c => select c d) cs df
                   = apply_filters w df)
    /\ apply_filters w (apply_filters w df) = apply_filters w df
    /\ apply_filters w (apply_filters w' df)
       = apply_filters w' (apply_filters w df).
Proof.
  intros df w w' c1 c2. repeat split.
  - rewrite !select_filter, !filter_twice. apply filter_same.
    intros r _. apply andb_comm.
  - rewrite !select_filter, filter_twice. apply filter_same.
    intros r _. apply andb_comm.
  - rewrite apply_filters_filter in H. apply filter_In in H. tauto.
  - rewrite apply_filters_filter in H. apply filter_In in H.
    destruct H as [_ H]. unfold matches in H.
    rewrite forallb_forall in H. exact H.
  - intros [H1 H2]. rewrite apply_filters_filter. apply filter_In.
    split; [exact H1|]. unfold matches. rewrite forallb_forall. exact H2.
  - intros cs H. rewrite fold_select_filter, apply_filters_filter.
    apply filter_same. intros r _. unfold matches.
    apply forallb_Permutation. exact H.
  - rewrite !apply_filters_filter, filter_twice. apply filter_same.
    intros r _. apply andb_diag.
  - rewrite !apply_filters_filter, !filter_twice. apply filter_same.
    intros r _. apply andb_comm.
Qed.

(* ------------------------------------------------------------------ *)
(** ** Incomplete rows *)

Lemma complete_iff (r : Row) :
  complete r = true <->
  Installs r <> NaN /\ Rating r <> NaN /\ Price r <> NaN.
Proof.
  unfold complete. rewrite !andb_true_iff, !negb_true_iff, !isna_false_iff.
  tauto.
Qed.

Lemma dropna_filter (df : list Row) : dropna df = filter complete df.
Proof. apply boolean_index_map. Qed.

Lemma load_and_transform_data_In (has_Size : bool) (csv : list RawRow)
  (r : Row) :
  In r (load_and_transform_data has_Size csv) <->
  complete r = true /\ exists raw, In raw csv /\ r = transform_row has_Size raw.
Proof.
  unfold load_and_transform_data. rewrite dropna_filter, filter_In, in_map_iff.
  rewrite drop_duplicates_drop_from.
  split.
  - intros [(raw & <- & H) Hc]. apply (@drop_from_In _ _ same_row_eq) in H.
    split; [exact Hc|]. exists raw. tauto.
  - intros [Hc (raw & H & ->)]. split; [|exact Hc].
    exists raw. split; [reflexivity|].
    apply (@drop_from_In _ _ same_row_eq). simpl. tauto.
Qed.

(** On a table whose Rating column is numeric: [dropna] removes a row
    exactly when its Installs, Rating or Price is null and keeps every other
    row in place, whatever its Size; through the whole pipeline a raw row
    survives exactly when its installs and price parse to a number and its
    rating is present. *)
Lemma dropna_numeric_rating :
  forall (has_Size : bool) (csv : list RawRow) (df : list Row) (r : Row),
    (Installs r = NaN \/ Rating r = NaN \/ Price r = NaN ->
     dropna (r :: df) = dropna df)
    /\ (Installs r <> NaN /\ Rating r <> NaN /\ Price r <> NaN ->
        dropna (r :: df) = r :: dropna df)
    /\ (In r (dropna df) <->
        In r df /\ Installs r <> NaN /\ Rating r <> NaN /\ Price r <> NaN)
    /\ (forall raw, In raw csv ->
          (In (transform_row has_Size raw)
              (load_and_transform_data has_Size csv) <->
           parse_installs (raw_Installs raw) <> NaN
           /\ raw_Rating raw <> NaN
           /\ parse_price (raw_Price raw) <> NaN))
    /\ (forall raw, raw_Rating raw = NaN ->
          ~ In (transform_row has_Size raw)
               (load_and_transform_data has_Size csv)).
Proof.
  intros has_Size csv df r. repeat split.
  - intros H. rewrite !dropna_filter. simpl.
    destruct (complete r) eqn:E; [|reflexivity].
    apply complete_iff in E. tauto.
  - intros H. rewrite !dropna_filter. simpl.
    apply complete_iff in H. rewrite H. reflexivity.
  - rewrite dropna_filter in H. apply filter_In in H. tauto.
  - rewrite dropna_filter in H. apply filter_In in H.
    destruct H as [_ H]. apply complete_iff in H. tauto.
  - rewrite dropna_filter in H. apply filter_In in H.
    destruct H as [_ H]. apply complete_iff in H. tauto.
  - rewrite dropna_filter in H. apply filter_In in H.
    destruct H as [_ H]. apply complete_iff in H. tauto.
  - intros (H1 & H2). rewrite dropna_filter. apply filter_In.
    split; [exact H1|]. apply complete_iff. exact H2.
  - apply load_and_transform_data_In in H0. destruct H0 as [Hc _].
    apply complete_iff in Hc. simpl in Hc. tauto.
  - apply load_and_transform_data_In in H0. destruct H0 as [Hc _].
    apply complete_iff in Hc. simpl in Hc. tauto.
  - apply load_and_transform_data_In in H0. destruct H0 as [Hc _].
    apply complete_iff in Hc. simpl in Hc. tauto.
  - intros Hc. apply load_and_transform_data_In. split.
    + apply complete_iff. simpl. exact Hc.
    + exists raw. auto.
  - intros raw Hr Hin. apply load_and_transform_data_In in Hin.
    destruct Hin as [Hc _]. apply complete_iff in Hc. simpl in Hc. tauto.
Qed.

Lemma same_text_row_eq (a b : RawTextRow) :
  same_text_row a b = true <-> a = b.
Proof.
  destruct a, b. unfold same_text_row. simpl.
  rewrite !andb_true_iff, !String.eqb_eq, !same_cell_eq, same_cells_eq.
  split.
  - intros ((((((((-> & ->) & ->) & ->) & ->) & ->) & ->) & ->) & ->).
    reflexivity.
  - intros H. injection H as -> -> -> -> -> -> -> -> ->. repeat split.
Qed.

Lemma complete_text_iff (r : TextRow) :
  complete_text r = true <->
  tInstalls r <> NaN /\ tRating r <> None /\ tPrice r <> NaN.
Proof.
  unfold complete_text.
  rewrite !andb_true_iff, !negb_true_iff, !isna_false_iff.
  destruct (tRating r); simpl; intuition congruence.
Qed.

Lemma load_and_transform_data_text_In (has_Size : bool)
  (csv : list RawTextRow) (r : TextRow) :
  In r (load_and_transform_data_text has_Size csv) <->
  complete_text r = true
  /\ exists raw, In raw csv /\ r = transform_text_row has_Size raw.
Proof.
  unfold load_and_transform_data_text, dropna_text.
  rewrite boolean_index_map, filter_In, in_map_iff.
  rewrite drop_duplicates_drop_from.
  split.
  - intros [(raw & <- & H) Hc].
    apply (@drop_from_In _ _ same_text_row_eq) in H.
    split; [exact Hc|]. exists raw. tauto.
  - intros [Hc (raw & H & ->)]. split; [|exact Hc].
    exists raw. split; [reflexivity|].
    apply (@drop_from_In _ _ same_text_row_eq). simpl. tauto.
Qed.



(* ------------------------------------------------------------------ *)
(** ** Type follows Price *)

Lemma fgt_zero_positive (x : float64) :
  fgt x (of_Z 0) = true <-> positive x.
Proof.
  unfold fgt. destruct x; simpl; try (split; [discriminate | tauto]).
  - apply Qc_ltb_lt.
  - tauto.
Qed.

Lemma derive_type_Paid (x : float64) :
  derive_type x = "Paid"%string <-> positive x.
Proof.
  rewrite <- fgt_zero_positive. unfold derive_type.
  destruct (fgt x (of_Z 0)); split; congruence.
Qed.

Lemma derive_type_Free (x : float64) :
  derive_type x = "Free"%string <-> ~ positive x.
Proof.
  rewrite <- fgt_zero_positive. unfold derive_type.
  destruct (fgt x (of_Z 0)); split; congruence.
Qed.

Lemma apply_filters_In (w : Widgets) (df : list Row) (r : Row) :
  In r (apply_filters w df) -> In r df /\ matches w r = true.
Proof. rewrite apply_filters_filter. apply filter_In. Qed.

(** C3: in the normalized table every row has a non-null price, Type Paid
    exactly when that price is above zero and Type Free otherwise; the
    filtered table inherits this, as does the filtering of any table that
    has it. *)
Theorem type_follows_price :
  forall (has_Size : bool) (csv : list RawRow) (w : Widgets),
    let df := load_and_transform_data has_Size csv in
    Forall type_consistent df
    /\ Forall type_consistent (apply_filters w df)
    /\ (forall df', Forall type_consistent df' ->
                    Forall type_consistent (apply_filters w df')).
Proof.
  intros has_Size csv w df.
  assert (Hdf : Forall type_consistent df).
  { apply Forall_forall. intros r Hr.
    apply load_and_transform_data_In in Hr.
    destruct Hr as [Hc (raw & _ & ->)].
    apply complete_iff in Hc. simpl in Hc.
    unfold type_consistent. simpl.
    split; [tauto|]. split; [apply derive_type_Paid | apply derive_type_Free]. }
  assert (Hpres : forall df', Forall type_consistent df' ->
                              Forall type_consistent (apply_filters w df')).
  { intros df' H. rewrite Forall_forall in *. intros r Hr.
    apply apply_filters_In in Hr. apply H. tauto. }
  auto.
Qed.

(* ------------------------------------------------------------------ *)
(** ** The worked scenario *)

Lemma constraints_of_installs (w : Widgets) (lo hi : Z) :
  In (InstallsIn lo hi) (constraints_of w) ->
  lo = fst (installs_range w) /\ hi = snd (installs_range w).
Proof.
  unfold constraints_of. rewrite !in_app_iff.
  destruct (selected_category w =? "Todas")%string;
    destruct (app_type w =? "Todos")%string; simpl;
    intuition (try discriminate; try congruence).
Qed.

Lemma constraints_of_has_installs (w : Widgets) :
  In (InstallsIn (fst (installs_range w)) (snd (installs_range w)))
     (constraints_of w).
Proof.
  unfold constraints_of. rewrite !in_app_iff. right. right. simpl. auto.
Qed.

(** C2: a raw row with installs "10,000+", price "$0" and rating 4.2 is
    retained with installs 10000, price 0.0, Type Free and rating 4.2; it
    passes a filter whose installs range is [0, 20000] once the other
    constraints accept it, and no filter whose installs range is
    [20000, 100000]. *)
Theorem scenario_ten_thousand_installs :
  forall (has_Size : bool) (raw : RawRow),
    raw_Installs raw = Some "10,000+"%string ->
    raw_Price raw = Some "$0"%string ->
    raw_Rating raw = decimal 42 1 ->
    let r := transform_row has_Size raw in
    load_and_transform_data has_Size [raw] = [r]
    /\ Installs r = of_Z 10000
    /\ Price r = of_Z 0
    /\ Type_ r = "Free"%string
    /\ Rating r = decimal 42 1
    /\ (forall w, installs_range w = (0, 20000)%Z ->
          (forall c, In c (constraints_of w) ->
                     (forall lo hi, c <> InstallsIn lo hi) ->
                     satisfies c r = true) ->
          apply_filters w [r] = [r])
    /\ (forall w, installs_range w = (20000, 100000)%Z ->
          apply_filters w [r] = []).
Proof.
  intros has_Size raw HI HP HR r.
  assert (Ei : Installs r = of_Z 10000).
  { unfold r. simpl. rewrite HI. float_eq. }
  assert (Ep : Price r = of_Z 0).
  { unfold r. simpl. rewrite HP. float_eq. }
  assert (Et : Type_ r = "Free"%string).
  { unfold r. simpl. rewrite HP. reflexivity. }
  assert (Er : Rating r = decimal 42 1) by exact HR.
  assert (El : load_and_transform_data has_Size [raw] = [r]).
  { unfold load_and_transform_data, dropna. simpl.
    fold r. unfold complete. rewrite Ei, Ep, Er. reflexivity. }
  clearbody r.
  repeat split; try assumption.
  - intros w Hw Hother. rewrite apply_filters_filter. simpl.
    assert (E : matches w r = true).
    { unfold matches. apply forallb_forall. intros c Hc.
      destruct c as [x|t|lo hi|lo hi|lo hi];
        try (apply Hother; [exact Hc | congruence]).
      apply constraints_of_installs in Hc. rewrite Hw in Hc.
      destruct Hc as [-> ->]. simpl. rewrite Ei. reflexivity. }
    rewrite E. reflexivity.
  - intros w Hw. rewrite apply_filters_filter. simpl.
    destruct (matches w r) eqn:E; [|reflexivity].
    unfold matches in E. rewrite forallb_forall in E.
    specialize (E _ (constraints_of_has_installs w)).
    rewrite Hw in E. simpl in E. rewrite Ei in E. discriminate E.
Qed.

Lemma scenario_ten_thousand_installs_witness :
  load_and_transform_data true [Sample.notes]
  = [transform_row true Sample.notes]
  /\ apply_filters Sample.small_apps [transform_row true Sample.notes]
     = [transform_row true Sample.notes]
  /\ apply_filters Sample.mid_apps [transform_row true Sample.notes] = [].
Proof.
  destruct (scenario_ten_thousand_installs true Sample.notes
              eq_refl eq_refl eq_refl)
    as (H1 & _ & _ & _ & _ & H2 & H3).
  split; [exact H1|]. split.
  - apply H2; [reflexivity|].
    intros c Hc Hn. simpl in Hc.
    destruct Hc as [<-|[<-|[<-|[]]]]; reflexivity.
  - apply H3. reflexivity.
Defined.

(* ------------------------------------------------------------------ *)
(** ** Statistics of an empty selection *)

(** C1, as stated, fails: this filter matches no row of the sample table,
    and the sum of installs is then the number 0, not the undefined value
    (the row count and the Paid count are 0 as well). *)
Lemma empty_selection_sum_is_zero :
  let filtered_df :=
    apply_filters Sample.mid_apps (load_and_transform_data true Sample.csv) in
  filtered_df = []
  /\ total_installs filtered_df = of_Z 0
  /\ total_installs filtered_df <> NaN
  /\ total_apps filtered_df = 0%nat
  /\ paid_apps filtered_df = 0%nat.
Proof.
  assert (E : apply_filters Sample.mid_apps
                (load_and_transform_data true Sample.csv) = [])
    by (vm_compute; reflexivity).
  cbv zeta. rewrite E. repeat split. discriminate.
Qed.

(** C1, amended: when the filter matches no row, no statistic raises; the
    row count, the Paid count and the sum of installs are 0, the mean
    rating is NaN, and the detailed block (top category, most expensive
    app, best rated app) is skipped altogether. *)
Theorem empty_selection_summary :
  forall (w : Widgets) (df : list Row),
    apply_filters w df = [] ->
    summary (apply_filters w df)
    = {| s_total_apps := 0;
         s_avg_rating := NaN;
         s_total_installs := of_Z 0;
         s_paid_apps := 0;
         s_detailed := pd.Ok None |}.
Proof.
  intros w df H. rewrite H. reflexivity.
Qed.

Lemma empty_selection_summary_witness :
  summary (apply_filters Sample.mid_apps
             (load_and_transform_data true Sample.csv))
  = {| s_total_apps := 0;
       s_avg_rating := NaN;
       s_total_installs := of_Z 0;
       s_paid_apps := 0;
       s_detailed := pd.Ok None |}.
Proof.
  apply (empty_selection_summary Sample.mid_apps
           (load_and_transform_data true Sample.csv)).
  vm_compute. reflexivity.
Defined.

(* ------------------------------------------------------------------ *)
(** ** The maximum of a column *)

Lemma fold_fmax2_In (vs : list float64) (v : float64) :
  In (fold_left pd.fmax2 vs v) (v :: vs).
Proof.
  revert v. induction vs as [|x vs IH]; intros v; simpl.
  - left. reflexivity.
  - destruct (IH (pd.fmax2 v x)) as [H|H]; [|right; right; exact H].
    rewrite <- H. unfold pd.fmax2. destruct (flt v x); simpl; auto.
Qed.

Lemma notna_values_all (col : list float64) :
  (forall v, In v col -> v <> NaN) -> pd.notna_values col = col.
Proof.
  intros H. apply filter_true. intros v Hv.
  apply negb_true_iff, isna_false_iff, H, Hv.
Qed.

Lemma max_In (col : list float64) :
  col <> [] -> (forall v, In v col -> v <> NaN) -> In (pd.max col) col.
Proof.
  intros Hne Hna. unfold pd.max. rewrite (notna_values_all _ Hna).
  destruct col as [|v vs]; [congruence|]. apply fold_fmax2_In.
Qed.

Lemma feq_refl (v : float64) : v <> NaN -> feq v v = true.
Proof.
  destruct v; simpl; try congruence; try reflexivity.
  intros _. apply Qc_eqb_eq. reflexivity.
Qed.

(** The rows reaching the maximum of a column without nulls. *)
Lemma argmax_nonempty (field : Row -> float64) (fdf : list Row) :
  fdf <> [] -> (forall r, In r fdf -> field r <> NaN) ->
  pd.boolean_index fdf
    (map (fun r => feq (field r) (pd.max (map field fdf))) fdf) <> [].
Proof.
  intros Hne Hna. rewrite boolean_index_map.
  assert (Hin : In (pd.max (map field fdf)) (map field fdf)).
  { apply max_In.
    - destruct fdf; [congruence | discriminate].
    - intros v Hv. apply in_map_iff in Hv. destruct Hv as (r & <- & Hr).
      apply Hna, Hr. }
  apply in_map_iff in Hin. destruct Hin as (r & Hr & Hin).
  intros E.
  assert (H : In r (filter (fun r => feq (field r) (pd.max (map field fdf)))
                      fdf)).
  { apply filter_In. split; [exact Hin|]. rewrite Hr. apply feq_refl.
    rewrite <- Hr. apply Hna, Hin. }
  rewrite E in H. exact H.
Qed.

Lemma matches_ranges (w : Widgets) (r : Row) :
  matches w r = true -> Price r <> NaN /\ Rating r <> NaN /\ Installs r <> NaN.
Proof.
  unfold matches. rewrite forallb_forall. intros H.
  assert (HP : In (PriceIn (fst (price_range w)) (snd (price_range w)))
                 (constraints_of w)).
  { unfold constraints_of. rewrite !in_app_iff. right. right. simpl. auto. }
  assert (HR : In (RatingIn (fst (rating_range w)) (snd (rating_range w)))
                 (constraints_of w)).
  { unfold constraints_of. rewrite !in_app_iff. right. right. simpl. auto. }
  apply H in HP. apply H in HR.
  specialize (H _ (constraints_of_has_installs w)).
  cbn [satisfies] in HP, HR, H. apply andb_true_iff in HP, HR, H.
  destruct HP as [HP _], HR as [HR _], H as [H _].
  repeat split; eapply fle_notna_r; eassumption.
Qed.

(* ------------------------------------------------------------------ *)
(** ** [value_counts] *)

Lemma count_label_snoc (x k : string) (col : list string) :
  count_label x (col ++ [k])
  = if (x =? k)%string then S (count_label x col) else count_label x col.
Proof.
  unfold count_label. rewrite filter_app, length_app. simpl.
  destruct (x =? k)%string; simpl; lia.
Qed.

Lemma count_label_absent (k : string) (col : list string) :
  ~ In k col -> count_label k col = 0%nat.
Proof.
  unfold count_label. induction col as [|x col IH]; simpl; intros H.
  - reflexivity.
  - destruct (k =? x)%string eqn:E.
    + apply String.eqb_eq in E. subst. tauto.
    + apply IH. tauto.
Qed.

Lemma count_label_present (k : string) (col : list string) :
  In k col -> (0 < count_label k col)%nat.
Proof.
  unfold count_label. induction col as [|x col IH]; simpl; intros H.
  - contradiction.
  - destruct (k =? x)%string eqn:E; simpl; [lia|].
    apply IH. destruct H as [->|H]; [|exact H].
    rewrite String.eqb_refl in E. discriminate.
Qed.

Lemma tally_snoc (col : list string) (k : string) :
  pd.tally (col ++ [k]) = pd.tally_add k (pd.tally col).
Proof. unfold pd.tally. rewrite fold_left_app. reflexivity. Qed.

Lemma tally_add_map (f : string -> nat) (k : string) (L : list string) :
  NoDup L ->
  pd.tally_add k (map (fun x => (x, f x)) L) =
  if existsb (String.eqb k) L
  then map (fun x => (x, if (x =? k)%string then S (f x) else f x)) L
  else map (fun x => (x, f x)) L ++ [(k, 1%nat)].
Proof.
  induction L as [|x L IH]; intros Hnd; simpl; [reflexivity|].
  inversion Hnd as [|? ? Hx Hnd']; subst.
  destruct (x =? k)%string eqn:E.
  - apply String.eqb_eq in E. subst x. rewrite String.eqb_refl. simpl.
    f_equal. apply map_ext_in. intros y Hy.
    destruct (y =? k)%string eqn:E'; [|reflexivity].
    apply String.eqb_eq in E'. subst. contradiction.
  - rewrite (String.eqb_sym k x), E. simpl. rewrite (IH Hnd').
    destruct (existsb (String.eqb k) L); reflexivity.
Qed.

(** The tally lists the distinct labels in order of first appearance, each
    with its number of occurrences. *)
Lemma tally_spec (col : list string) :
  pd.tally col
  = map (fun k => (k, count_label k col)) (pd.drop_duplicates String.eqb col).
Proof.
  induction col as [|k col IH] using rev_ind; [reflexivity|].
  rewrite tally_snoc, IH, tally_add_map.
  2:{ rewrite drop_duplicates_drop_from.
      apply (@drop_from_NoDup _ _ String.eqb_eq). }
  destruct (existsb (String.eqb k) (pd.drop_duplicates String.eqb col)) eqn:E.
  - apply (@existsb_same_In _ _ String.eqb_eq) in E.
    rewrite drop_duplicates_drop_from in E.
    apply (@drop_from_In _ _ String.eqb_eq) in E. destruct E as [E _].
    rewrite (@drop_duplicates_snoc_old _ _ String.eqb_eq _ _ E).
    apply map_ext. intros x. rewrite count_label_snoc. reflexivity.
  - apply (@existsb_same_not_In _ _ String.eqb_eq) in E.
    assert (E' : ~ In k col).
    { intros H. apply E. rewrite drop_duplicates_drop_from.
      apply (@drop_from_In _ _ String.eqb_eq). simpl. tauto. }
    rewrite (@drop_duplicates_snoc_new _ _ String.eqb_eq _ _ E'), map_app. simpl.
    rewrite count_label_snoc, String.eqb_refl, (@count_label_absent _ _ E').
    f_equal. apply map_ext_in. intros x Hx. rewrite count_label_snoc.
    destruct (x =? k)%string eqn:Ex; [|reflexivity].
    apply String.eqb_eq in Ex. subst. contradiction.
Qed.

Lemma insert_desc_not_nil (e : string * nat) (l : list (string * nat)) :
  pd.insert_desc e l <> [].
Proof.
  destruct l as [|e' l]; simpl; [discriminate|].
  destruct (snd e' <=? snd e)%nat; discriminate.
Qed.

Lemma sort_desc_nil (l : list (string * nat)) : pd.sort_desc l = [] -> l = [].
Proof.
  destruct l as [|e l]; simpl; [reflexivity|].
  intros H. exfalso. exact (insert_desc_not_nil _ _ H).
Qed.

(** The head of the sorted tally is the first entry with the largest
    count. *)
Lemma sort_desc_head (l : list (string * nat)) :
  forall e rest, pd.sort_desc l = e :: rest ->
  exists l1 l2, l = l1 ++ e :: l2
    /\ (forall e', In e' l1 -> (snd e' < snd e)%nat)
    /\ (forall e', In e' l2 -> (snd e' <= snd e)%nat).
Proof.
  induction l as [|x l IH]; intros e rest H; simpl in H; [discriminate|].
  destruct (pd.sort_desc l) as [|e' s'] eqn:ES.
  - apply sort_desc_nil in ES. subst l. simpl in H.
    injection H as <- _. exists [], []. simpl. repeat split; tauto.
  - destruct (IH _ _ eq_refl) as (l1 & l2 & -> & H1 & H2).
    simpl in H. destruct (snd e' <=? snd x)%nat eqn:E.
    + apply Nat.leb_le in E. injection H as <- _.
      exists [], (l1 ++ e' :: l2). simpl. repeat split; [tauto|].
      intros e'' Hin. apply in_app_or in Hin.
      destruct Hin as [Hin|[<-|Hin]].
      * apply H1 in Hin. lia.
      * exact E.
      * apply H2 in Hin. lia.
    + apply Nat.leb_gt in E. injection H as <- _.
      exists (x :: l1), l2. simpl. repeat split; [|exact H2].
      intros e'' [<-|Hin]; [exact E | apply H1, Hin].
Qed.

(** A label that comes later among the distinct labels first appears
    later in the column. *)
Lemma drop_from_before (a b : string) (col seen d1 d2 : list string) :
  drop_from String.eqb seen col = d1 ++ a :: d2 -> In b d2 ->
  exists p s, col = p ++ a :: s /\ ~ In b p /\ ~ In a p.
Proof.
  revert seen d1. induction col as [|y col IH]; intros seen d1 H Hb.
  - destruct d1; discriminate.
  - assert (Hb' : In b (drop_from String.eqb seen (y :: col))).
    { rewrite H. apply in_or_app. right. right. exact Hb. }
    assert (Ha' : In a (drop_from String.eqb seen (y :: col))).
    { rewrite H. apply in_or_app. right. left. reflexivity. }
    apply (@drop_from_In _ _ String.eqb_eq) in Hb', Ha'.
    rewrite drop_from_cons in H.
    destruct (existsb (String.eqb y) seen) eqn:E.
    + apply (@existsb_same_In _ _ String.eqb_eq) in E.
      destruct (IH _ _ H Hb) as (p & s & -> & Hp & Hp').
      exists (y :: p), s. simpl. repeat split.
      * intros [->|Hin]; [tauto | contradiction].
      * intros [->|Hin]; [tauto | contradiction].
    + destruct d1 as [|z d1]; simpl in H; injection H as -> H.
      * exists [], col. simpl. tauto.
      * destruct (IH _ _ H Hb) as (p & s & -> & Hp & Hp').
        assert (Hb2 : In b (drop_from String.eqb (z :: seen)
                              (p ++ a :: s))).
        { rewrite H. apply in_or_app. right. right. exact Hb. }
        assert (Ha2 : In a (drop_from String.eqb (z :: seen)
                              (p ++ a :: s))).
        { rewrite H. apply in_or_app. right. left. reflexivity. }
        apply (@drop_from_In _ _ String.eqb_eq) in Hb2, Ha2.
        exists (z :: p), s. simpl. repeat split.
        -- intros [->|Hin]; [|contradiction].
           apply (proj2 Hb2). left. reflexivity.
        -- intros [->|Hin]; [|contradiction].
           apply (proj2 Ha2). left. reflexivity.
Qed.

(** [value_counts().index[0]] on a column of labels. *)
Lemma value_counts_top (col : list string) :
  col <> [] ->
  exists top n rest,
    pd.value_counts col = (top, n) :: rest
    /\ n = count_label top col
    /\ (0 < n)%nat
    /\ (forall c, (count_label c col <= count_label top col)%nat)
    /\ (forall c, c <> top -> count_label c col = count_label top col ->
          exists p s, col = p ++ top :: s /\ ~ In c p /\ ~ In top p).
Proof.
  intros Hne. unfold pd.value_counts.
  destruct (pd.sort_desc (pd.tally col)) as [|[top n] rest] eqn:ES.
  { apply sort_desc_nil in ES. rewrite tally_spec in ES.
    apply map_eq_nil in ES. destruct col as [|k col]; [congruence|].
    assert (H : In k (pd.drop_duplicates String.eqb (k :: col))).
    { rewrite drop_duplicates_drop_from.
      apply (@drop_from_In _ _ String.eqb_eq). simpl. tauto. }
    rewrite ES in H. contradiction. }
  destruct (@sort_desc_head _ _ _ ES) as (l1 & l2 & Hl & H1 & H2).
  rewrite tally_spec in Hl.
  apply map_eq_app in Hl. destruct Hl as (d1 & d' & Hd & Hl1 & Hl).
  apply map_eq_cons in Hl. destruct Hl as (t & d2 & -> & Ht & Hl2).
  injection Ht as -> Hn. simpl in H1, H2.
  assert (Htop : In top col).
  { assert (H : In top (pd.drop_duplicates String.eqb col)).
    { rewrite Hd. apply in_or_app. right. left. reflexivity. }
    rewrite drop_duplicates_drop_from in H.
    apply (@drop_from_In _ _ String.eqb_eq) in H. tauto. }
  assert (Hle1 : forall c, In c d1 ->
                   (count_label c col < count_label top col)%nat).
  { intros c Hc. rewrite Hn.
    apply (H1 (c, count_label c col)). rewrite <- Hl1.
    apply in_map_iff. exists c. auto. }
  assert (Hle2 : forall c, In c d2 ->
                   (count_label c col <= count_label top col)%nat).
  { intros c Hc. rewrite Hn.
    apply (H2 (c, count_label c col)). rewrite <- Hl2.
    apply in_map_iff. exists c. auto. }
  assert (Hcase : forall c, In c col -> In c d1 \/ c = top \/ In c d2).
  { intros c Hc.
    assert (H : In c (pd.drop_duplicates String.eqb col)).
    { rewrite drop_duplicates_drop_from.
      apply (@drop_from_In _ _ String.eqb_eq). simpl. tauto. }
    rewrite Hd in H. apply in_app_or in H. simpl in H.
    destruct H as [H|[H|H]]; auto. }
  exists top, n, rest. repeat split.
  - symmetry. exact Hn.
  - rewrite <- Hn. apply count_label_present, Htop.
  - intros c. destruct (in_dec string_dec c col) as [Hc|Hc].
    + destruct (Hcase c Hc) as [H|[->|H]].
      * apply Hle1 in H. lia.
      * lia.
      * apply Hle2, H.
    + rewrite (@count_label_absent _ _ Hc). lia.
  - intros c Hne' Heq.
    assert (Hc : In c col).
    { destruct (in_dec string_dec c col) as [Hc|Hc]; [exact Hc|].
      rewrite (@count_label_absent _ _ Hc) in Heq.
      apply count_label_present in Htop. lia. }
    destruct (Hcase c Hc) as [H|[->|H]].
    + apply Hle1 in H. lia.
    + congruence.
    + rewrite drop_duplicates_drop_from in Hd.
      exact (@drop_from_before _ _ _ _ _ _ Hd H).
Qed.

(* ------------------------------------------------------------------ *)
(** ** The detailed block on a non-empty selection *)

Lemma category_count_label (c : string) (fdf : list Row) :
  category_count c fdf = count_label c (map Category fdf).
Proof.
  unfold category_count, count_label.
  induction fdf as [|r fdf IH]; simpl; [reflexivity|].
  rewrite (String.eqb_sym (Category r) c).
  destruct (c =? Category r)%string; simpl; rewrite IH; reflexivity.
Qed.

Lemma top_category_of_spec (fdf : list Row) :
  fdf <> [] ->
  exists top,
    top_category_of fdf = pd.Ok top
    /\ (0 < category_count top fdf)%nat
    /\ (forall c, (category_count c fdf <= category_count top fdf)%nat)
    /\ (forall c, c <> top ->
          category_count c fdf = category_count top fdf ->
          exists f1 r f2, fdf = f1 ++ r :: f2 /\ Category r = top
            /\ forall r', In r' f1 -> Category r' <> c /\ Category r' <> top).
Proof.
  intros Hne.
  assert (Hcol : map Category fdf <> []).
  { destruct fdf; [congruence | discriminate]. }
  destruct (value_counts_top Hcol) as (top & n & rest & Hv & Hn & Hpos & Hmax & Htie).
  exists top. unfold top_category_of. rewrite Hv. simpl.
  split; [reflexivity|]. split; [|split].
  - rewrite category_count_label, <- Hn. exact Hpos.
  - intros c. rewrite !category_count_label. apply Hmax.
  - intros c Hc Heq. rewrite !category_count_label in Heq.
    destruct (Htie c Hc Heq) as (p & s & Hsplit & Hp & Hp').
    apply map_eq_app in Hsplit. destruct Hsplit as (f1 & f' & -> & Hf1 & Hf').
    apply map_eq_cons in Hf'. destruct Hf' as (r & f2 & -> & Hr & _).
    exists f1, r, f2. split; [reflexivity|]. split; [exact Hr|].
    intros r' Hr'. subst p.
    split; intros E; [apply Hp | apply Hp']; rewrite <- E;
      apply in_map; exact Hr'.
Qed.

(** C8, as stated, fails: the tie is decided among the selected rows, not
    in the whole normalized table.  Here ART comes first in the normalized
    table, but its first row is filtered out by the rating range; ART and
    BOOKS are left with one selected row each, BOOKS first, and BOOKS is
    the top category. *)
Lemma top_category_tie_follows_selection :
  map Category (load_and_transform_data true Sample.tied)
  = ["ART"; "BOOKS"; "ART"]%string
  /\ map Category
       (apply_filters Sample.everything
          (load_and_transform_data true Sample.tied))
     = ["BOOKS"; "ART"]%string
  /\ category_count "ART"
       (apply_filters Sample.everything
          (load_and_transform_data true Sample.tied))
     = category_count "BOOKS"
         (apply_filters Sample.everything
            (load_and_transform_data true Sample.tied))
  /\ top_category_of
       (apply_filters Sample.everything
          (load_and_transform_data true Sample.tied))
     = pd.Ok "BOOKS"%string.
Proof. repeat split; vm_compute; reflexivity. Qed.

(** C8, amended: on a non-empty filtered table the top category is read
    without error and no category has more rows in the selection; a
    category with as many rows as the top one is met, among the selected
    rows taken in the order of the normalized table, only after the top
    one. *)
Theorem top_category_most_frequent :
  forall (w : Widgets) (df : list Row),
    apply_filters w df <> [] ->
    exists top,
      top_category_of (apply_filters w df) = pd.Ok top
      /\ (0 < category_count top (apply_filters w df))%nat
      /\ (forall c, (category_count c (apply_filters w df)
                     <= category_count top (apply_filters w df))%nat)
      /\ (forall c, c <> top ->
            category_count c (apply_filters w df)
            = category_count top (apply_filters w df) ->
            exists l1 r l2,
              df = l1 ++ r :: l2
              /\ matches w r = true
              /\ Category r = top
              /\ forall r', In r' l1 -> matches w r' = true ->
                            Category r' <> c /\ Category r' <> top).
Proof.
  intros w df Hne.
  destruct (top_category_of_spec Hne) as (top & Htop & Hpos & Hmax & Htie).
  exists top. repeat split; try assumption.
  intros c Hc Heq.
  destruct (Htie c Hc Heq) as (f1 & r & f2 & Hsplit & Hr & Hf1).
  rewrite apply_filters_filter in Hsplit.
  apply filter_split in Hsplit.
  destruct Hsplit as (l1 & l2 & -> & H1 & _ & Hm).
  exists l1, r, l2. repeat split; try assumption.
  - apply Hf1. rewrite <- H1. apply filter_In. auto.
  - apply Hf1. rewrite <- H1. apply filter_In. auto.
Qed.

Lemma top_category_most_frequent_witness :
  exists top,
    top_category_of
      (apply_filters Sample.everything
         (load_and_transform_data true Sample.csv)) = pd.Ok top
    /\ forall c,
         (category_count c
            (apply_filters Sample.everything
               (load_and_transform_data true Sample.csv))
          <= category_count top
               (apply_filters Sample.everything
                  (load_and_transform_data true Sample.csv)))%nat.
Proof.
  destruct (@top_category_most_frequent Sample.everything
              (load_and_transform_data true Sample.csv))
    as (top & H1 & _ & H2 & _).
  - vm_compute. discriminate.
  - exists top. split; [exact H1 | exact H2].
Defined.

(** C10: on a non-empty filtered table some row reaches the maximum price
    and some row reaches the maximum rating, so the block names an app in
    both columns and neither fallback text is written. *)
Theorem maximum_rows_exist :
  forall (w : Widgets) (df : list Row),
    apply_filters w df <> [] ->
    most_expensive (apply_filters w df) <> []
    /\ best_rated (apply_filters w df) <> []
    /\ exists top app1 price app2 rating,
         detailed_stats (apply_filters w df)
         = pd.Ok (Some {| top_category := top;
                          expensive_line := AppLine app1 price;
                          rated_line := AppLine app2 rating |}).
Proof.
  intros w df Hne.
  assert (Hna : forall r, In r (apply_filters w df) ->
                  Price r <> NaN /\ Rating r <> NaN).
  { intros r Hr. apply apply_filters_In in Hr. destruct Hr as [_ Hr].
    apply matches_ranges in Hr. tauto. }
  assert (HP : most_expensive (apply_filters w df) <> []).
  { apply (argmax_nonempty Price Hne). intros r Hr. apply Hna, Hr. }
  assert (HR : best_rated (apply_filters w df) <> []).
  { apply (argmax_nonempty Rating Hne). intros r Hr. apply Hna, Hr. }
  split; [exact HP|]. split; [exact HR|].
  destruct (top_category_of_spec Hne) as (top & Htop & _).
  unfold detailed_stats. rewrite Htop.
  destruct (apply_filters w df) as [|r0 fdf] eqn:E; [congruence|].
  rewrite <- E in *. replace (0 <? List.length (apply_filters w df))%nat with true
    by (rewrite E; reflexivity).
  destruct (most_expensive (apply_filters w df)) as [|r1 m1]; [congruence|].
  destruct (best_rated (apply_filters w df)) as [|r2 m2]; [congruence|].
  simpl. eauto 6.
Qed.

Lemma maximum_rows_exist_witness :
  most_expensive
    (apply_filters Sample.everything
       (load_and_transform_data true Sample.csv)) <> []
  /\ best_rated
       (apply_filters Sample.everything
          (load_and_transform_data true Sample.csv)) <> [].
Proof.
  destruct (@maximum_rows_exist Sample.everything
              (load_and_transform_data true Sample.csv))
    as (H1 & H2 & _).
  - vm_compute. discriminate.
  - split; [exact H1 | exact H2].
Defined.

(* ------------------------------------------------------------------ *)
(** ** Reading numerals *)

Lemma append_nil_r (s : string) : (s ++ "")%string = s.
Proof. induction s as [|c s IH]; simpl; [reflexivity | rewrite IH; reflexivity]. Qed.

Lemma append_assoc (a b c : string) :
  ((a ++ b) ++ c)%string = (a ++ (b ++ c))%string.
Proof. induction a as [|x a IH]; simpl; [reflexivity | rewrite IH; reflexivity]. Qed.

Lemma length_append (a b : string) :
  String.length (a ++ b) = (String.length a + String.length b)%nat.
Proof. induction a as [|x a IH]; simpl; [reflexivity | rewrite IH; reflexivity]. Qed.

Lemma isdigit_not_space (c : ascii) :
  pd.isdigit_ascii c = true -> pd.isspace_ascii c = false.
Proof.
  unfold pd.isdigit_ascii, pd.isspace_ascii. cbv zeta.
  rewrite andb_true_iff, !Nat.leb_le. intros [H1 H2].
  apply orb_false_iff. split.
  - apply Nat.eqb_neq. lia.
  - apply andb_false_iff. right. apply Nat.leb_gt. lia.
Qed.

Lemma isdigit_differs (c old : ascii) :
  pd.isdigit_ascii c = true -> pd.isdigit_ascii old = false ->
  Ascii.eqb c old = false.
Proof.
  intros Hc Ho. destruct (Ascii.eqb c old) eqn:E; [|reflexivity].
  apply Ascii.eqb_eq in E. congruence.
Qed.

Lemma isdigit_scan_sign (c : ascii) (s : string) :
  pd.isdigit_ascii c = true ->
  pd.scan_sign (String c s) = (false, String c s).
Proof.
  intros H.
  assert (E1 : Ascii.eqb c "-" = false) by (apply isdigit_differs; auto).
  assert (E2 : Ascii.eqb c "+" = false) by (apply isdigit_differs; auto).
  destruct c as [[] [] [] [] [] [] [] []]; try reflexivity; discriminate.
Qed.

Lemma digits_value_app (acc : Z) (a b : string) :
  digits_value acc (a ++ b) = digits_value (digits_value acc a) b.
Proof.
  revert acc. induction a as [|c a IH]; intros acc; simpl; [reflexivity|].
  apply IH.
Qed.

Lemma scan_digits_all (ds : string) (acc : Z) (n : nat) :
  all_digits ds = true ->
  pd.scan_digits acc n ds
  = (digits_value acc ds, (n + String.length ds)%nat, EmptyString).
Proof.
  revert acc n. induction ds as [|c ds IH]; intros acc n H; simpl in *.
  - rewrite Nat.add_0_r. reflexivity.
  - apply andb_true_iff in H. destruct H as [Hc Hds].
    rewrite Hc, (@IH _ _ Hds). f_equal. f_equal. lia.
Qed.

Lemma scan_digits_stop (ds : string) (c : ascii) (rest : string)
  (acc : Z) (n : nat) :
  all_digits ds = true -> pd.isdigit_ascii c = false ->
  pd.scan_digits acc n (ds ++ String c rest)
  = (digits_value acc ds, (n + String.length ds)%nat, String c rest).
Proof.
  revert acc n. induction ds as [|d ds IH]; intros acc n H Hc; simpl in *.
  - rewrite Hc, Nat.add_0_r. reflexivity.
  - apply andb_true_iff in H. destruct H as [Hd Hds].
    rewrite Hd, (@IH _ _ Hds Hc). f_equal. f_equal. lia.
Qed.

Lemma scan_digits_none (s : string) (acc : Z) (n : nat) :
  has_digit s = false -> pd.scan_digits acc n s = (acc, n, s).
Proof.
  destruct s as [|c s]; simpl; [reflexivity|].
  intros H. apply orb_false_iff in H. destruct H as [-> _]. reflexivity.
Qed.

Lemma scale10_decimal (m : Z) (k : nat) :
  Q2Qc (pd.scale10 m (0 - Z.of_nat k))
  = Q2Qc (m # Z.to_pos (10 ^ Z.of_nat k)).
Proof.
  unfold pd.scale10. destruct (0 <=? 0 - Z.of_nat k)%Z eqn:E.
  - apply Z.leb_le in E. assert (k = 0%nat) by lia. subst k. simpl.
    apply Q2Qc_eq_iff. unfold Qeq, inject_Z. simpl. lia.
  - replace (- (0 - Z.of_nat k))%Z with (Z.of_nat k) by lia. reflexivity.
Qed.

Lemma scale10_integer (m : Z) :
  Q2Qc (pd.scale10 m (0 - Z.of_nat 0)) = Q2Qc (inject_Z m).
Proof.
  apply Q2Qc_eq_iff. unfold pd.scale10. simpl.
  unfold Qeq, inject_Z. simpl. lia.
Qed.

(** A numeral with a decimal point, led by a digit. *)
Lemma to_numeric_decimal (ip fp : string) :
  all_digits ip = true -> all_digits fp = true -> ip <> EmptyString ->
  pd.to_numeric (ip ++ String "." fp)
  = decimal (digits_value 0 (ip ++ fp)) (String.length fp).
Proof.
  intros Hip Hfp Hne.
  destruct ip as [|c ip]; [congruence|]. clear Hne.
  assert (Hc : pd.isdigit_ascii c = true).
  { simpl in Hip. apply andb_true_iff in Hip. tauto. }
  unfold pd.to_numeric, pd.floatify, pd.to_double, pd.xstrtod.
  change (String c ip ++ String "." fp)%string
    with (String c (ip ++ String "." fp)).
  cbn [pd.skip_space]. rewrite (@isdigit_not_space c Hc).
  rewrite (@isdigit_scan_sign c _ Hc).
  change (String c (ip ++ String "." fp))
    with (String c ip ++ String "." fp)%string.
  rewrite (@scan_digits_stop (String c ip) "." fp 0%Z 0%nat Hip eq_refl).
  cbn iota beta. rewrite (@scan_digits_all fp _ _ Hfp).
  cbn [Nat.add String.length]. cbn iota beta.
  cbn [pd.scan_exponent pd.skip_space].
  rewrite digits_value_app. unfold decimal.
  rewrite <- scale10_decimal. reflexivity.
Qed.

(** A numeral without a decimal point. *)
Lemma to_numeric_integer (ip : string) :
  all_digits ip = true -> ip <> EmptyString ->
  pd.to_numeric ip = of_Z (digits_value 0 ip).
Proof.
  intros Hip Hne.
  destruct ip as [|c ip]; [congruence|]. clear Hne.
  assert (Hc : pd.isdigit_ascii c = true).
  { simpl in Hip. apply andb_true_iff in Hip. tauto. }
  unfold pd.to_numeric, pd.floatify, pd.to_double, pd.xstrtod.
  cbn [pd.skip_space]. rewrite (@isdigit_not_space c Hc).
  rewrite (@isdigit_scan_sign c _ Hc).
  rewrite (@scan_digits_all (String c ip) _ _ Hip).
  cbn [Nat.add String.length]. cbn iota beta.
  cbn [pd.scan_exponent pd.skip_space].
  unfold of_Z. rewrite <- scale10_integer. reflexivity.
Qed.

Lemma skip_space_no_digit (s : string) :
  has_digit s = false -> has_digit (pd.skip_space s) = false.
Proof.
  induction s as [|c s IH]; simpl; intros H; [reflexivity|].
  apply orb_false_iff in H. destruct H as [Hc Hs].
  destruct (pd.isspace_ascii c); [apply IH, Hs|].
  simpl. rewrite Hc, Hs. reflexivity.
Qed.

Lemma scan_sign_no_digit (s : string) :
  has_digit s = false -> has_digit (snd (pd.scan_sign s)) = false.
Proof.
  destruct s as [|c s]; [reflexivity|].
  intros H. pose proof H as H'. simpl in H'.
  apply orb_false_iff in H'. destruct H' as [_ Hs].
  destruct c as [[] [] [] [] [] [] [] []]; assumption.
Qed.

Lemma fraction_no_digit (s : string) (m : Z) :
  has_digit s = false ->
  exists s3,
    match s with
    | String "." s' => pd.scan_digits m 0 s'
    | _ => (m, 0%nat, s)
    end = (m, 0%nat, s3).
Proof.
  destruct s as [|c s]; [eexists; reflexivity|].
  intros H. simpl in H. apply orb_false_iff in H. destruct H as [_ Hs].
  destruct c as [[] [] [] [] [] [] [] []];
    try (eexists; reflexivity).
  rewrite (@scan_digits_none s m 0%nat Hs). eexists; reflexivity.
Qed.

(** Text without a digit is not a number for the tokenizer. *)
Lemma to_double_no_digit (s : string) :
  has_digit s = false -> pd.to_double s = None.
Proof.
  intros H. unfold pd.to_double, pd.xstrtod.
  apply skip_space_no_digit, scan_sign_no_digit in H.
  destruct (pd.scan_sign (pd.skip_space s)) as [neg s1]. simpl in H.
  rewrite (@scan_digits_none s1 0%Z 0%nat H).
  destruct (@fraction_no_digit s1 0%Z H) as (s3 & ->). reflexivity.
Qed.

Lemma to_numeric_no_digit (s : string) (q : Qc) :
  has_digit s = false -> pd.to_numeric s <> Fin q.
Proof.
  intros H. unfold pd.to_numeric, pd.floatify.
  rewrite (@to_double_no_digit s H).
  destruct (_ || _); [discriminate|].
  destruct (_ || _); discriminate.
Qed.

Lemma str_replace_app (old : ascii) (new a b : string) :
  pd.str_replace old new (a ++ b)
  = (pd.str_replace old new a ++ pd.str_replace old new b)%string.
Proof.
  induction a as [|c a IH]; simpl; [reflexivity|].
  rewrite IH. destruct (Ascii.eqb c old); simpl;
    [rewrite append_assoc|]; reflexivity.
Qed.

Lemma str_replace_absent (old : ascii) (new s : string) :
  absent old s = true -> pd.str_replace old new s = s.
Proof.
  induction s as [|c s IH]; simpl; intros H; [reflexivity|].
  apply andb_true_iff in H. destruct H as [Hc Hs].
  apply negb_true_iff in Hc. rewrite Hc, (IH Hs). reflexivity.
Qed.

Lemma str_replace_no_digit (old : ascii) (s : string) :
  has_digit s = false -> has_digit (pd.str_replace old "" s) = false.
Proof.
  induction s as [|c s IH]; simpl; intros H; [reflexivity|].
  apply orb_false_iff in H. destruct H as [Hc Hs].
  destruct (Ascii.eqb c old); simpl; [apply IH, Hs|].
  rewrite Hc, (IH Hs). reflexivity.
Qed.

Lemma absent_app (c : ascii) (a b : string) :
  absent c (a ++ b) = absent c a && absent c b.
Proof.
  induction a as [|x a IH]; simpl; [reflexivity|].
  rewrite IH, andb_assoc. reflexivity.
Qed.

Lemma absent_digits (old : ascii) (ds : string) :
  all_digits ds = true -> pd.isdigit_ascii old = false ->
  absent old ds = true.
Proof.
  induction ds as [|c ds IH]; simpl; intros H Ho; [reflexivity|].
  apply andb_true_iff in H. destruct H as [Hc Hds].
  rewrite (@isdigit_differs c old Hc Ho), (IH Hds Ho). reflexivity.
Qed.

(** A plain numeral holds none of the characters the script deletes. *)
Lemma absent_numeral (old : ascii) (ip fp : string) :
  all_digits ip = true -> all_digits fp = true ->
  pd.isdigit_ascii old = false -> Ascii.eqb "." old = false ->
  absent old (ip ++ String "." fp) = true.
Proof.
  intros Hip Hfp Ho Hdot. rewrite absent_app. cbn [absent].
  rewrite Hdot, (@absent_digits old ip Hip Ho), (@absent_digits old fp Hfp Ho).
  reflexivity.
Qed.

(* ------------------------------------------------------------------ *)
(** ** Price *)


Lemma parse_price_plain (s : string) :
  absent "$" s = true -> parse_price (Some s) = pd.to_numeric s.
Proof.
  intros H. unfold parse_price. simpl.
  rewrite str_replace_absent by exact H. reflexivity.
Qed.



(* ------------------------------------------------------------------ *)
(** ** Size *)


(** A numeral followed by one unit letter reads as the numeral. *)
Lemma parse_size_suffix (d : string) (u : ascii) :
  absent "M" d = true -> absent "k" d = true ->
  u = "M"%char \/ u = "k"%char ->
  parse_size (Some (d ++ String u "")%string) = pd.to_numeric d.
Proof.
  intros HM Hk Hu. unfold parse_size. cbn [pd.astype_str].
  rewrite !str_replace_app, (@str_replace_absent "M" "" d HM).
  destruct Hu as [-> | ->]; cbn [pd.str_replace Ascii.eqb Bool.eqb append];
    rewrite ?str_replace_app; cbn [pd.str_replace Ascii.eqb Bool.eqb append];
    rewrite ?append_nil_r, (@str_replace_absent "k" "" d Hk); reflexivity.
Qed.




(* ------------------------------------------------------------------ *)
(** ** Installs *)

Lemma installs_text_cleaned (s : string) :
  installs_text s = true ->
  pd.str_replace "," "" (pd.str_replace "+" "" s) = keep_digits s.
Proof.
  induction s as [|c s IH]; simpl; intros H; [reflexivity|].
  apply andb_true_iff in H. destruct H as [Hc Hs].
  destruct (pd.isdigit_ascii c) eqn:Ed.
  - rewrite (@isdigit_differs c "+" Ed eq_refl). simpl.
    rewrite (@isdigit_differs c "," Ed eq_refl), (IH Hs). reflexivity.
  - simpl in Hc. apply orb_true_iff in Hc. destruct Hc as [Hc|Hc];
      apply Ascii.eqb_eq in Hc; subst c; simpl; apply IH, Hs.
Qed.

Lemma keep_digits_all_digits (s : string) : all_digits (keep_digits s) = true.
Proof.
  induction s as [|c s IH]; simpl; [reflexivity|].
  destruct (pd.isdigit_ascii c) eqn:E; simpl; [rewrite E|]; exact IH.
Qed.

Lemma keep_digits_nonempty (s : string) :
  has_digit s = true -> keep_digits s <> EmptyString.
Proof.
  induction s as [|c s IH]; simpl; intros H; [discriminate|].
  destruct (pd.isdigit_ascii c); [discriminate | apply IH, H].
Qed.

(** X1: an installs cell written with digits, commas and plus signs, with
    at least one and at most 15 digits, reads as the integer its digits
    write, wherever the commas and plus signs stand. *)
Theorem parse_installs_digits :
  forall s : string,
    installs_text s = true -> has_digit s = true ->
    (String.length (keep_digits s) <= float64_digits)%nat ->
    parse_installs (Some s) = of_Z (digits_value 0 (keep_digits s)).
Proof.
  intros s Ht Hd _. unfold parse_installs. cbn [pd.astype_str].
  rewrite (installs_text_cleaned _ Ht).
  apply to_numeric_integer;
    [apply keep_digits_all_digits | apply keep_digits_nonempty, Hd].
Qed.

Lemma parse_installs_digits_witness :
  parse_installs (Some "1,000,000+"%string) = of_Z 1000000.
Proof.
  apply (@parse_installs_digits "1,000,000+" eq_refl eq_refl).
  unfold float64_digits. simpl. lia.
Defined.

(** X2: an installs cell without any digit, such as "Free", and a missing
    cell read as no finite number; the row is then retained only if the
    text spells an infinity. *)
Theorem parse_installs_no_digit :
  forall (has_Size : bool) (csv : list RawRow) (raw : RawRow),
    has_digit (pd.astype_str (raw_Installs raw)) = false ->
    (forall q, parse_installs (raw_Installs raw) <> Fin q)
    /\ (In (transform_row has_Size raw) (load_and_transform_data has_Size csv)
        -> parse_installs (raw_Installs raw) = PosInf
           \/ parse_installs (raw_Installs raw) = NegInf).
Proof.
  intros has_Size csv raw H.
  assert (Hq : forall q, parse_installs (raw_Installs raw) <> Fin q).
  { intros q. unfold parse_installs.
    apply to_numeric_no_digit, str_replace_no_digit, str_replace_no_digit, H. }
  split; [exact Hq|]. intros Hin.
  apply load_and_transform_data_In in Hin. destruct Hin as [Hc _].
  apply complete_iff in Hc. simpl in Hc. destruct Hc as [Hc _].
  destruct (parse_installs (raw_Installs raw)) as [| |q|]; auto.
  - congruence.
  - exfalso. exact (Hq q eq_refl).
Qed.

Lemma parse_installs_no_digit_witness :
  parse_installs (Some "Free"%string) <> of_Z 0
  /\ ~ In (transform_row true (Sample.raw "Quiz" "GAME" (decimal 40 1) "Free" "0"))
         (load_and_transform_data true
            [Sample.raw "Quiz" "GAME" (decimal 40 1) "Free" "0"]).
Proof.
  destruct (@parse_installs_no_digit true
              [Sample.raw "Quiz" "GAME" (decimal 40 1) "Free" "0"]
              (Sample.raw "Quiz" "GAME" (decimal 40 1) "Free" "0") eq_refl)
    as [H1 H2].
  split; [apply H1|].
  intros Hin. destruct (H2 Hin) as [E|E]; vm_compute in E; discriminate E.
Defined.

(* ------------------------------------------------------------------ *)
(** ** The loader as a whole *)

Lemma Subseq_refl (A : Type) (l : list A) : Subseq l l.
Proof. induction l; constructor; assumption. Qed.

Lemma Subseq_trans (A : Type) (l1 l2 l3 : list A) :
  Subseq l1 l2 -> Subseq l2 l3 -> Subseq l1 l3.
Proof.
  intros H12 H23. revert l1 H12.
  induction H23 as [|x l2 l3 H IH|x l2 l3 H IH]; intros l1 H12.
  - exact H12.
  - inversion H12; subst; constructor; apply IH; assumption.
  - constructor. apply IH, H12.
Qed.

Lemma Subseq_map (A B : Type) (f : A -> B) (l l' : list A) :
  Subseq l l' -> Subseq (map f l) (map f l').
Proof. induction 1; simpl; constructor; assumption. Qed.

Lemma Subseq_length (A : Type) (l l' : list A) :
  Subseq l l' -> (List.length l <= List.length l')%nat.
Proof. induction 1; simpl; lia. Qed.

Lemma Subseq_In (A : Type) (l l' : list A) (x : A) :
  Subseq l l' -> In x l -> In x l'.
Proof. induction 1; simpl; intuition. Qed.

(** X3: the normalized table is the transformed input with rows deleted:
    no row is invented, none is moved, and it has at most as many rows as
    the CSV. *)
Theorem load_and_transform_data_keeps_order :
  forall (has_Size : bool) (csv : list RawRow),
    Subseq (load_and_transform_data has_Size csv)
           (map (transform_row has_Size) csv)
    /\ (List.length (load_and_transform_data has_Size csv)
        <= List.length csv)%nat.
Proof.
  intros has_Size csv.
  assert (H : Subseq (load_and_transform_data has_Size csv)
                     (map (transform_row has_Size) csv)).
  { unfold load_and_transform_data. rewrite dropna_filter.
    eapply Subseq_trans; [apply filter_Subseq|].
    apply Subseq_map. rewrite drop_duplicates_drop_from.
    apply drop_from_Subseq. }
  split; [exact H|].
  apply Subseq_length in H. rewrite length_map in H. exact H.
Qed.

Section DuplicatesAppend.
Variable A : Type.
Variable same : A -> A -> bool.
Hypothesis same_eq : forall x y, same x y = true <-> x = y.

Lemma drop_from_seen_all (df seen : list A) :
  (forall x, In x df -> In x seen) -> drop_from same seen df = [].
Proof.
  revert seen. induction df as [|y df IH]; intros seen H; [reflexivity|].
  rewrite drop_from_cons.
  assert (E : existsb (same y) seen = true).
  { apply (@existsb_same_In _ _ same_eq). apply H. left. reflexivity. }
  rewrite E. apply IH. intros x Hx. right. apply H. right. exact Hx.
Qed.

Lemma drop_from_app (a b seen : list A) :
  drop_from same seen (a ++ b)
  = drop_from same seen a ++ drop_from same (rev a ++ seen) b.
Proof.
  revert seen. induction a as [|y a IH]; intros seen; [reflexivity|].
  simpl. rewrite <- app_assoc. simpl.
  rewrite !drop_from_cons, IH.
  destruct (existsb (same y) seen); reflexivity.
Qed.
End DuplicatesAppend.

(** X4: rows that repeat rows already in the CSV, appended at its end,
    leave the normalized table as it is. *)
Theorem load_and_transform_data_ignores_copies :
  forall (has_Size : bool) (csv copies : list RawRow),
    (forall r, In r copies -> In r csv) ->
    load_and_transform_data has_Size (csv ++ copies)
    = load_and_transform_data has_Size csv.
Proof.
  intros has_Size csv copies H. unfold load_and_transform_data.
  rewrite !drop_duplicates_drop_from, drop_from_app.
  rewrite (@drop_from_seen_all _ _ same_row_eq copies (rev csv ++ [])).
  - rewrite app_nil_r. reflexivity.
  - intros x Hx. apply in_or_app. left. apply in_rev.
    rewrite rev_involutive. apply H, Hx.
Qed.

Lemma load_and_transform_data_ignores_copies_witness :
  load_and_transform_data true (Sample.csv ++ [Sample.chess; Sample.notes])
  = load_and_transform_data true Sample.csv.
Proof.
  apply load_and_transform_data_ignores_copies.
  intros r [<-|[<-|[]]]; simpl; auto.
Defined.

Lemma String_cons_neq (c : ascii) (s : string) : String c s <> s.
Proof.
  intros H. apply (f_equal String.length) in H. simpl in H. lia.
Qed.

(** X5: duplicates are removed on the raw cells only.  A row whose price is
    written with a dollar sign and the same row with the price written
    without it differ as raw rows and normalize to the same row; when the
    row is complete (installs and price plain numerals of at most 15
    digits, rating present) both are retained, so the normalized table
    holds the same row twice. *)
Theorem load_and_transform_data_keeps_equal_rows :
  forall (has_Size : bool) (r : RawRow) (s ip : string),
    raw_Installs r = Some s ->
    installs_text s = true -> has_digit s = true ->
    (String.length (keep_digits s) <= float64_digits)%nat ->
    raw_Price r = Some ip ->
    all_digits ip = true -> ip <> EmptyString ->
    (String.length ip <= float64_digits)%nat ->
    raw_Rating r <> NaN ->
    exists t,
      load_and_transform_data has_Size
        [set_raw_Price (Some ("$" ++ ip)%string) r; r] = [t; t].
Proof.
  intros has_Size r s ip HI Ht Hd _ HP Hip Hne _ HR.
  set (r1 := set_raw_Price (Some ("$" ++ ip)%string) r).
  assert (Hneq : same_row r r1 = false).
  { destruct (same_row r r1) eqn:E; [|reflexivity].
    apply same_row_eq in E. apply (f_equal raw_Price) in E.
    unfold r1 in E. simpl in E. rewrite HP in E. injection E as E.
    symmetry in E. exfalso. exact (String_cons_neq E). }
  assert (EP : parse_price (raw_Price r1) = parse_price (raw_Price r)).
  { unfold r1. simpl. rewrite HP. unfold parse_price.
    cbn [pd.astype_str pd.str_replace Ascii.eqb Bool.eqb]. cbn [append].
    reflexivity. }
  assert (Et : transform_row has_Size r1 = transform_row has_Size r).
  { unfold transform_row. rewrite EP. reflexivity. }
  assert (Hc : complete (transform_row has_Size r) = true).
  { apply complete_iff. simpl. rewrite HI, HP. repeat split.
    - unfold parse_installs. cbn [pd.astype_str].
      rewrite (@installs_text_cleaned s Ht).
      rewrite to_numeric_integer;
        [discriminate | apply keep_digits_all_digits
         | apply keep_digits_nonempty, Hd].
    - exact HR.
    - unfold parse_price. cbn [pd.astype_str].
      rewrite str_replace_absent by (apply absent_digits; auto).
      rewrite to_numeric_integer; [discriminate | exact Hip | exact Hne]. }
  exists (transform_row has_Size r).
  unfold load_and_transform_data, pd.drop_duplicates, pd.duplicated.
  cbn [pd.duplicated_from existsb map negb pd.boolean_index].
  rewrite Hneq. cbn [orb negb pd.boolean_index map].
  unfold dropna. cbn [map pd.boolean_index]. rewrite Et, Hc. reflexivity.
Qed.

Lemma load_and_transform_data_keeps_equal_rows_witness :
  exists t,
    load_and_transform_data true
      [Sample.raw "Notes" "TOOLS" (decimal 42 1) "10,000+" "$0";
       Sample.raw "Notes" "TOOLS" (decimal 42 1) "10,000+" "0"]
    = [t; t].
Proof.
  apply (@load_and_transform_data_keeps_equal_rows true
           (Sample.raw "Notes" "TOOLS" (decimal 42 1) "10,000+" "0")
           "10,000+" "0" eq_refl eq_refl eq_refl).
  - unfold float64_digits. simpl. lia.
  - reflexivity.
  - reflexivity.
  - discriminate.
  - unfold float64_digits. simpl. lia.
  - discriminate.
Defined.

(* ------------------------------------------------------------------ *)
(** ** Free and Paid *)

Lemma load_and_transform_data_Type (has_Size : bool) (csv : list RawRow)
  (r : Row) :
  In r (load_and_transform_data has_Size csv) ->
  Type_ r = "Free"%string \/ Type_ r = "Paid"%string.
Proof.
  intros H. apply load_and_transform_data_In in H.
  destruct H as [_ (raw & _ & ->)]. simpl. unfold derive_type.
  destruct (fgt _ _); auto.
Qed.

Lemma free_paid_partition (df : list Row) :
  (forall r, In r df -> Type_ r = "Free"%string \/ Type_ r = "Paid"%string) ->
  (free_apps df + paid_apps df = List.length df)%nat.
Proof.
  unfold free_apps, paid_apps. rewrite !boolean_index_map.
  induction df as [|r df IH]; intros H; [reflexivity|].
  simpl. assert (IH' := IH (fun x Hx => H x (or_intror Hx))).
  destruct (H r (or_introl eq_refl)) as [E|E]; rewrite E; simpl; lia.
Qed.

(** X6: in the normalized table and in every filtered table every row is
    Free or Paid, so the Free count and the Paid count add up to the number
    of rows. *)
Theorem free_and_paid_add_up :
  forall (has_Size : bool) (csv : list RawRow) (w : Widgets),
    let df := load_and_transform_data has_Size csv in
    (free_apps df + paid_apps df = List.length df)%nat
    /\ (free_apps (apply_filters w df) + paid_apps (apply_filters w df)
        = total_apps (apply_filters w df))%nat.
Proof.
  intros has_Size csv w df. split.
  - apply free_paid_partition. intros r Hr.
    apply (load_and_transform_data_Type _ _ _ Hr).
  - apply free_paid_partition. intros r Hr.
    apply apply_filters_In in Hr. destruct Hr as [Hr _].
    apply (load_and_transform_data_Type _ _ _ Hr).
Qed.

Lemma matches_iff (w : Widgets) (r : Row) :
  matches w r = true <->
  (selected_category w = "Todas"%string \/ Category r = selected_category w)
  /\ (app_type w = "Todos"%string \/ Type_ r = app_type w)
  /\ mask_ranges w r = true.
Proof.
  unfold matches, constraints_of, mask_ranges, fge.
  destruct (selected_category w =? "Todas")%string eqn:Ec;
    destruct (app_type w =? "Todos")%string eqn:Et;
    cbn [app forallb satisfies];
    rewrite ?String.eqb_eq in *; rewrite ?String.eqb_neq in *;
    rewrite !andb_true_iff, ?String.eqb_eq; tauto.
Qed.

Lemma filter_false (A : Type) (p : A -> bool) (l : list A) :
  (forall x, In x l -> p x = false) -> filter p l = [].
Proof.
  induction l as [|x l IH]; simpl; intros H; [reflexivity|].
  rewrite (H x (or_introl eq_refl)). apply IH. auto.
Qed.

(** X7: when the type selectbox is on Paid every row of the filtered table
    is counted as a paid app, and when it is on Free none is. *)
Theorem app_type_decides_paid_apps :
  forall (w : Widgets) (df : list Row),
    (app_type w = "Paid"%string ->
     paid_apps (apply_filters w df) = total_apps (apply_filters w df))
    /\ (app_type w = "Free"%string -> paid_apps (apply_filters w df) = 0%nat).
Proof.
  intros w df. unfold paid_apps, total_apps. rewrite boolean_index_map.
  split; intros Ht.
  - rewrite filter_true; [reflexivity|]. intros r Hr.
    apply apply_filters_In in Hr. destruct Hr as [_ Hr].
    apply matches_iff in Hr. destruct Hr as (_ & [E|E] & _).
    + rewrite Ht in E. discriminate.
    + rewrite E, Ht. reflexivity.
  - rewrite filter_false; [reflexivity|]. intros r Hr.
    apply apply_filters_In in Hr. destruct Hr as [_ Hr].
    apply matches_iff in Hr. destruct Hr as (_ & [E|E] & _).
    + rewrite Ht in E. discriminate.
    + rewrite E, Ht. reflexivity.
Qed.

(* ------------------------------------------------------------------ *)
(** ** Widening the widgets *)

Lemma fle_trans (a b c : float64) :
  fle a b = true -> fle b c = true -> fle a c = true.
Proof.
  destruct a, b, c; simpl; try congruence.
  rewrite !Qc_leb_le. apply Qcle_trans.
Qed.

Lemma fle_Fin (a b : Qc) : (a <= b)%Qc -> fle (Fin a) (Fin b) = true.
Proof. intros H. simpl. apply Qc_leb_le, H. Qed.

Lemma fle_of_Z (a b : Z) : (a <= b)%Z -> fle (of_Z a) (of_Z b) = true.
Proof.
  intros H. unfold of_Z. apply fle_Fin. unfold Qcle. cbn [this Q2Qc].
  rewrite !Qred_correct. rewrite <- Zle_Qle. exact H.
Qed.

Lemma mask_ranges_wider (w' w : Widgets) (r : Row) :
  wider w' w -> mask_ranges w r = true -> mask_ranges w' r = true.
Proof.
  intros (_ & _ & P1 & P2 & R1 & R2 & I1 & I2). unfold mask_ranges, fge.
  rewrite !andb_true_iff.
  intros (((((H1 & H2) & H3) & H4) & H5) & H6).
  repeat split.
  - exact (fle_trans _ _ _ (fle_Fin P1) H1).
  - exact (fle_trans _ _ _ H2 (fle_Fin P2)).
  - exact (fle_trans _ _ _ (fle_Fin R1) H3).
  - exact (fle_trans _ _ _ H4 (fle_Fin R2)).
  - exact (fle_trans _ _ _ (fle_of_Z I1) H5).
  - exact (fle_trans _ _ _ H6 (fle_of_Z I2)).
Qed.

Lemma matches_wider (w' w : Widgets) (r : Row) :
  wider w' w -> matches w r = true -> matches w' r = true.
Proof.
  intros Hw H. pose proof Hw as (C & T & _).
  apply matches_iff in H. destruct H as (Hc & Ht & Hr).
  apply matches_iff. split; [|split].
  - destruct C as [C|C]; [left; exact C|]. rewrite C.
    destruct Hc as [Hc|Hc]; [left; congruence | right; exact Hc].
  - destruct T as [T|T]; [left; exact T|]. rewrite T.
    destruct Ht as [Ht|Ht]; [left; congruence | right; exact Ht].
  - exact (@mask_ranges_wider w' w r Hw Hr).
Qed.

(** X8: a widget state that asks for no more (a wildcard or the same
    choice in each selectbox, and ranges that contain the other's) loses no
    row: the narrower selection is the wider one with rows deleted, and
    narrowing the wider selection gives the narrower one. *)
Theorem widening_keeps_rows :
  forall (w' w : Widgets) (df : list Row),
    wider w' w ->
    Subseq (apply_filters w df) (apply_filters w' df)
    /\ apply_filters w (apply_filters w' df) = apply_filters w df.
Proof.
  intros w' w df Hw.
  assert (E : apply_filters w (apply_filters w' df) = apply_filters w df).
  { rewrite !apply_filters_filter, filter_twice. apply filter_same.
    intros r _. destruct (matches w r) eqn:Em.
    - rewrite (@matches_wider w' w r Hw Em). reflexivity.
    - apply andb_false_r. }
  split; [|exact E]. rewrite <- E.
  rewrite (apply_filters_filter w). apply filter_Subseq.
Qed.

Lemma widening_keeps_rows_witness :
  apply_filters Sample.small_apps
    (apply_filters Sample.everything
       (load_and_transform_data true Sample.csv))
  = apply_filters Sample.small_apps (load_and_transform_data true Sample.csv).
Proof.
  apply (@widening_keeps_rows Sample.everything Sample.small_apps).
  unfold wider. simpl.
  repeat split; auto; try (unfold Qcle; simpl; lra); lia.
Defined.

(* ------------------------------------------------------------------ *)
(** ** Largest and smallest entries of a column *)

Lemma fle_refl (a : float64) : a <> NaN -> fle a a = true.
Proof.
  destruct a; simpl; try congruence; try reflexivity.
  intros _. apply Qc_leb_le, Qcle_refl.
Qed.

Lemma flt_fle (a b : float64) : flt a b = true -> fle a b = true.
Proof.
  destruct a, b; simpl; try congruence.
  rewrite Qc_ltb_lt, Qc_leb_le. apply Qclt_le_weak.
Qed.

Lemma flt_false_fle (a b : float64) :
  a <> NaN -> b <> NaN -> flt a b = false -> fle b a = true.
Proof.
  destruct a, b; simpl; try congruence.
  intros _ _ H. unfold Qc_ltb in H. apply negb_false_iff in H. exact H.
Qed.

Lemma fle_not_feq_flt (a b : float64) :
  fle a b = true -> feq a b = false -> flt a b = true.
Proof.
  destruct a, b; simpl; try congruence.
  rewrite Qc_leb_le, Qc_ltb_lt. intros H E.
  destruct (Qcle_lt_or_eq _ _ H) as [Hl|He]; [exact Hl|].
  apply Qc_eqb_eq in He. congruence.
Qed.

Lemma feq_eq (a b : float64) : feq a b = true -> a = b.
Proof.
  destruct a, b; simpl; try congruence.
  intros H. apply Qc_eqb_eq in H. congruence.
Qed.

Lemma fmax2_bounds (a b : float64) :
  a <> NaN -> b <> NaN ->
  pd.fmax2 a b <> NaN
  /\ fle a (pd.fmax2 a b) = true /\ fle b (pd.fmax2 a b) = true.
Proof.
  intros Ha Hb. unfold pd.fmax2. destruct (flt a b) eqn:E.
  - repeat split; [exact Hb | apply flt_fle, E | apply fle_refl, Hb].
  - repeat split;
      [exact Ha | apply fle_refl, Ha | apply flt_false_fle; assumption].
Qed.

Lemma fmin2_bounds (a b : float64) :
  a <> NaN -> b <> NaN ->
  pdx.fmin2 a b <> NaN
  /\ fle (pdx.fmin2 a b) a = true /\ fle (pdx.fmin2 a b) b = true.
Proof.
  intros Ha Hb. unfold pdx.fmin2. destruct (flt b a) eqn:E.
  - repeat split; [exact Hb | apply flt_fle, E | apply fle_refl, Hb].
  - repeat split;
      [exact Ha | apply fle_refl, Ha | apply flt_false_fle; assumption].
Qed.

Lemma fold_fmax2_ge (vs : list float64) (v : float64) :
  (forall x, In x (v :: vs) -> x <> NaN) ->
  forall x, In x (v :: vs) -> fle x (fold_left pd.fmax2 vs v) = true.
Proof.
  revert v. induction vs as [|y vs IH]; intros v Hna x Hx.
  - destruct Hx as [<-|[]]. apply fle_refl, Hna. left. reflexivity.
  - simpl.
    destruct (@fmax2_bounds v y) as (Hm & Hv & Hy);
      [apply Hna; simpl; auto | apply Hna; simpl; auto |].
    assert (Hna' : forall z, In z (pd.fmax2 v y :: vs) -> z <> NaN).
    { intros z [<-|Hz]; [exact Hm | apply Hna; simpl; auto]. }
    destruct Hx as [<-|[<-|Hx]].
    + eapply fle_trans; [exact Hv|]. apply IH; [exact Hna' | left; reflexivity].
    + eapply fle_trans; [exact Hy|]. apply IH; [exact Hna' | left; reflexivity].
    + apply IH; [exact Hna' | right; exact Hx].
Qed.

Lemma fold_fmin2_le (vs : list float64) (v : float64) :
  (forall x, In x (v :: vs) -> x <> NaN) ->
  forall x, In x (v :: vs) -> fle (fold_left pdx.fmin2 vs v) x = true.
Proof.
  revert v. induction vs as [|y vs IH]; intros v Hna x Hx.
  - destruct Hx as [<-|[]]. apply fle_refl, Hna. left. reflexivity.
  - simpl.
    destruct (@fmin2_bounds v y) as (Hm & Hv & Hy);
      [apply Hna; simpl; auto | apply Hna; simpl; auto |].
    assert (Hna' : forall z, In z (pdx.fmin2 v y :: vs) -> z <> NaN).
    { intros z [<-|Hz]; [exact Hm | apply Hna; simpl; auto]. }
    destruct Hx as [<-|[<-|Hx]].
    + eapply fle_trans; [|exact Hv]. apply IH; [exact Hna' | left; reflexivity].
    + eapply fle_trans; [|exact Hy]. apply IH; [exact Hna' | left; reflexivity].
    + apply IH; [exact Hna' | right; exact Hx].
Qed.

Lemma fold_fmin2_In (vs : list float64) (v : float64) :
  In (fold_left pdx.fmin2 vs v) (v :: vs).
Proof.
  revert v. induction vs as [|x vs IH]; intros v; simpl.
  - left. reflexivity.
  - destruct (IH (pdx.fmin2 v x)) as [H|H]; [|right; right; exact H].
    rewrite <- H. unfold pdx.fmin2. destruct (flt x v); simpl; auto.
Qed.

Lemma max_ge (col : list float64) :
  (forall v, In v col -> v <> NaN) ->
  forall x, In x col -> fle x (pd.max col) = true.
Proof.
  intros Hna x Hx. unfold pd.max. rewrite (notna_values_all _ Hna).
  destruct col as [|v vs]; [contradiction|].
  apply fold_fmax2_ge; assumption.
Qed.

Lemma min_le (col : list float64) :
  (forall v, In v col -> v <> NaN) ->
  forall x, In x col -> fle (pdx.min col) x = true.
Proof.
  intros Hna x Hx. unfold pdx.min. rewrite (notna_values_all _ Hna).
  destruct col as [|v vs]; [contradiction|].
  apply fold_fmin2_le; assumption.
Qed.

Lemma min_In (col : list float64) :
  col <> [] -> (forall v, In v col -> v <> NaN) -> In (pdx.min col) col.
Proof.
  intros Hne Hna. unfold pdx.min. rewrite (notna_values_all _ Hna).
  destruct col as [|v vs]; [congruence|]. apply fold_fmin2_In.
Qed.

(** The first row reaching the maximum of a column without nulls. *)
Lemma argmax_first (field : Row -> float64) (fdf : list Row) :
  fdf <> [] -> (forall r, In r fdf -> field r <> NaN) ->
  exists r rest f1 f2,
    pd.boolean_index fdf
      (map (fun r => feq (field r) (pd.max (map field fdf))) fdf) = r :: rest
    /\ fdf = f1 ++ r :: f2
    /\ (forall r', In r' fdf -> fle (field r') (field r) = true)
    /\ (forall r', In r' f1 -> flt (field r') (field r) = true).
Proof.
  intros Hne Hna.
  pose proof (argmax_nonempty field Hne Hna) as Hrows.
  assert (Hge : forall r', In r' fdf ->
                  fle (field r') (pd.max (map field fdf)) = true).
  { intros r' Hr'. apply max_ge.
    - intros v Hv. apply in_map_iff in Hv. destruct Hv as (x & <- & Hx).
      apply Hna, Hx.
    - apply in_map. exact Hr'. }
  rewrite boolean_index_map in *.
  destruct (filter _ fdf) as [|r rest] eqn:E; [congruence|].
  change (r :: rest) with ([] ++ r :: rest) in E.
  apply filter_split in E. destruct E as (l1 & l2 & Hs & H1 & _ & Hr).
  apply feq_eq in Hr.
  exists r, rest, l1, l2. split; [reflexivity|]. split; [exact Hs|]. split.
  - intros r' Hr'. rewrite Hr. apply Hge, Hr'.
  - intros r' Hr'. rewrite Hr. apply fle_not_feq_flt.
    + apply Hge. rewrite Hs. apply in_or_app. left. exact Hr'.
    + destruct (feq (field r') (pd.max (map field fdf))) eqn:Ef;
        [|reflexivity].
      assert (Hin : In r' (filter (fun r0 => feq (field r0)
                                     (pd.max (map field fdf))) l1)).
      { apply filter_In. auto. }
      rewrite H1 in Hin. contradiction.
Qed.

(** X9: on a non-empty filtered table the app named most expensive is the
    first row, in table order, whose price no selected row exceeds: every
    selected row is priced at most as high, and every row before it
    strictly lower; likewise for the best rated app and the rating. *)
Theorem named_apps_are_first_maxima :
  forall (w : Widgets) (df : list Row),
    apply_filters w df <> [] ->
    (exists r rest f1 f2,
        most_expensive (apply_filters w df) = r :: rest
        /\ apply_filters w df = f1 ++ r :: f2
        /\ (forall r', In r' (apply_filters w df) ->
                       fle (Price r') (Price r) = true)
        /\ (forall r', In r' f1 -> flt (Price r') (Price r) = true))
    /\ (exists r rest f1 f2,
           best_rated (apply_filters w df) = r :: rest
           /\ apply_filters w df = f1 ++ r :: f2
           /\ (forall r', In r' (apply_filters w df) ->
                          fle (Rating r') (Rating r) = true)
           /\ (forall r', In r' f1 -> flt (Rating r') (Rating r) = true)).
Proof.
  intros w df Hne.
  assert (Hna : forall r, In r (apply_filters w df) ->
                  Price r <> NaN /\ Rating r <> NaN).
  { intros r Hr. apply apply_filters_In in Hr. destruct Hr as [_ Hr].
    apply matches_ranges in Hr. tauto. }
  split.
  - apply (argmax_first Price Hne). intros r Hr. apply Hna, Hr.
  - apply (argmax_first Rating Hne). intros r Hr. apply Hna, Hr.
Qed.

Lemma named_apps_are_first_maxima_witness :
  exists r rest,
    most_expensive
      (apply_filters Sample.everything
         (load_and_transform_data true Sample.csv)) = r :: rest
    /\ forall r',
         In r' (apply_filters Sample.everything
                  (load_and_transform_data true Sample.csv)) ->
         fle (Price r') (Price r) = true.
Proof.
  destruct (@named_apps_are_first_maxima Sample.everything
              (load_and_transform_data true Sample.csv))
    as [(r & rest & f1 & f2 & H1 & _ & H2 & _) _].
  - vm_compute. discriminate.
  - exists r, rest. split; [exact H1 | exact H2].
Defined.

(* ------------------------------------------------------------------ *)
(** ** The installs slider *)

Lemma trunc_le (q : Q) (z : Z) : (q <= inject_Z z)%Q -> (py.trunc q <= z)%Z.
Proof.
  intros H. apply Qceiling_resp_le in H. rewrite Qceiling_Z in H.
  unfold py.trunc. destruct (Qle_bool 0 q); cbv iota; [|exact H].
  pose proof (Qle_floor_ceiling q) as Hfc. rewrite <- Zle_Qle in Hfc. lia.
Qed.

Lemma trunc_ge (q : Q) (z : Z) : (inject_Z z <= q)%Q -> (z <= py.trunc q)%Z.
Proof.
  intros H. apply Qfloor_resp_le in H. rewrite Qfloor_Z in H.
  unfold py.trunc. destruct (Qle_bool 0 q); cbv iota; [exact H|].
  pose proof (Qle_floor_ceiling q) as Hfc. rewrite <- Zle_Qle in Hfc. lia.
Qed.

Lemma fle_Fin_of_Z (q : Qc) (z : Z) :
  fle (Fin q) (of_Z z) = true -> (q <= inject_Z z)%Q.
Proof.
  unfold of_Z. simpl. rewrite Qc_leb_le. unfold Qcle. cbn [this Q2Qc].
  rewrite Qred_correct. auto.
Qed.

Lemma fle_of_Z_Fin (q : Qc) (z : Z) :
  fle (of_Z z) (Fin q) = true -> (inject_Z z <= q)%Q.
Proof.
  unfold of_Z. simpl. rewrite Qc_leb_le. unfold Qcle. cbn [this Q2Qc].
  rewrite Qred_correct. auto.
Qed.

(** X10: on a non-empty table whose installs are all finite, the slider's
    initial range is computed without error, and every row whose installs
    is a whole number lies inside it.  (The bounds are rounded toward zero,
    so only whole numbers are covered.) *)
Theorem default_installs_range_covers :
  forall df : list Row,
    df <> [] ->
    (forall r, In r df -> exists q, Installs r = Fin q) ->
    exists lo hi,
      default_installs_range df = py.Returns (lo, hi)
      /\ forall r z, In r df -> Installs r = of_Z z ->
           (lo <= z <= hi)%Z
           /\ fle (of_Z lo) (Installs r) = true
           /\ fle (Installs r) (of_Z hi) = true.
Proof.
  intros df Hne Hfin.
  assert (Hcol : map Installs df <> []).
  { destruct df; [congruence | discriminate]. }
  assert (Hna : forall v, In v (map Installs df) -> v <> NaN).
  { intros v Hv. apply in_map_iff in Hv. destruct Hv as (r & <- & Hr).
    destruct (Hfin r Hr) as (q & ->). discriminate. }
  assert (HFin : forall v, In v (map Installs df) -> exists q, v = Fin q).
  { intros v Hv. apply in_map_iff in Hv. destruct Hv as (r & <- & Hr).
    apply Hfin, Hr. }
  destruct (HFin _ (min_In Hcol Hna)) as (qmin & Emin).
  destruct (HFin _ (max_In Hcol Hna)) as (qmax & Emax).
  exists (py.trunc qmin), (py.trunc qmax).
  unfold default_installs_range, min_installs, max_installs.
  rewrite Emin, Emax. simpl. split; [reflexivity|].
  intros r z Hr Ez.
  assert (Hin : In (of_Z z) (map Installs df)).
  { rewrite <- Ez. apply in_map, Hr. }
  pose proof (min_le _ Hna _ Hin) as Hlo. rewrite Emin in Hlo.
  pose proof (max_ge _ Hna _ Hin) as Hhi. rewrite Emax in Hhi.
  apply fle_Fin_of_Z, trunc_le in Hlo.
  apply fle_of_Z_Fin, trunc_ge in Hhi.
  rewrite Ez. split; [lia|]. split; apply fle_of_Z; assumption.
Qed.

Lemma default_installs_range_covers_witness :
  exists lo hi,
    default_installs_range (load_and_transform_data true Sample.csv)
    = py.Returns (lo, hi).
Proof.
  destruct (@default_installs_range_covers
              (load_and_transform_data true Sample.csv))
    as (lo & hi & H & _).
  - vm_compute. discriminate.
  - intros r [<-|[<-|[]]]; eexists; reflexivity.
  - exists lo, hi. exact H.
Defined.

(** X11: on a table without any non-null installs, in particular on an
    empty one, computing the slider's bounds raises ValueError. *)
Theorem default_installs_range_raises :
  forall df : list Row,
    (forall r, In r df -> Installs r = NaN) ->
    min_installs df = py.Raises py.ValueError
    /\ max_installs df = py.Raises py.ValueError
    /\ default_installs_range df = py.Raises py.ValueError.
Proof.
  intros df H.
  assert (E : pd.notna_values (map Installs df) = []).
  { unfold pd.notna_values. apply filter_false. intros v Hv.
    apply in_map_iff in Hv. destruct Hv as (r & <- & Hr).
    rewrite (H r Hr). reflexivity. }
  unfold default_installs_range, min_installs, max_installs, pdx.min, pd.max.
  rewrite E. simpl. auto.
Qed.

Lemma default_installs_range_raises_witness :
  default_installs_range
    (apply_filters Sample.mid_apps (load_and_transform_data true Sample.csv))
  = py.Raises py.ValueError.
Proof.
  apply default_installs_range_raises. intros r Hr.
  vm_compute in Hr. contradiction.
Defined.

(* ------------------------------------------------------------------ *)
(** ** Facts about the insertion sort *)

Section StableSortFacts.
Variable A : Type.
Variable before : A -> A -> bool.

Lemma insert_by_Permutation (x : A) (l : list A) :
  Permutation (x :: l) (insert_by before x l).
Proof.
  induction l as [|y l IH]; simpl; [apply Permutation_refl|].
  destruct (before x y); [apply Permutation_refl|].
  eapply Permutation_trans; [apply perm_swap|].
  apply perm_skip, IH.
Qed.

Lemma sort_by_Permutation (l : list A) : Permutation l (sort_by before l).
Proof.
  induction l as [|x l IH]; simpl; [constructor|].
  eapply Permutation_trans; [apply perm_skip, IH|].
  apply insert_by_Permutation.
Qed.

Hypothesis before_total : forall a b, before a b = true \/ before b a = true.

Lemma insert_by_Sorted (x : A) (l : list A) :
  Sorted (fun a b => before a b = true) l ->
  Sorted (fun a b => before a b = true) (insert_by before x l).
Proof.
  induction l as [|y l IH]; intros H; simpl.
  - constructor; constructor.
  - destruct (before x y) eqn:E.
    + constructor; [exact H|]. constructor. exact E.
    + assert (Hyx : before y x = true).
      { destruct (before_total x y) as [H'|H']; congruence. }
      inversion H as [|? ? Hs Hh]; subst.
      constructor; [apply IH, Hs|].
      destruct l as [|z l]; simpl.
      * constructor. exact Hyx.
      * destruct (before x z); constructor; [exact Hyx|].
        inversion Hh; subst. assumption.
Qed.

Lemma sort_by_Sorted (l : list A) :
  Sorted (fun a b => before a b = true) (sort_by before l).
Proof.
  induction l as [|x l IH]; simpl; [constructor|].
  apply insert_by_Sorted, IH.
Qed.

Hypothesis before_trans :
  forall a b c, before a b = true -> before b c = true -> before a c = true.

Lemma sort_by_StronglySorted (l : list A) :
  StronglySorted (fun a b => before a b = true) (sort_by before l).
Proof.
  apply Sorted_StronglySorted; [|apply sort_by_Sorted].
  intros a b c. apply before_trans.
Qed.
End StableSortFacts.

Lemma StronglySorted_app (A : Type) (R : A -> A -> Prop) (l1 l2 : list A) :
  StronglySorted R (l1 ++ l2) ->
  StronglySorted R l1
  /\ forall a b, In a l1 -> In b l2 -> R a b.
Proof.
  induction l1 as [|x l1 IH]; simpl; intros H.
  - split; [constructor | intros a b []].
  - inversion H as [|? ? Hs Hall]; subst.
    destruct (IH Hs) as [H1 H2]. rewrite Forall_forall in Hall. split.
    + constructor; [exact H1|]. apply Forall_forall. intros y Hy.
      apply Hall, in_or_app. left. exact Hy.
    + intros a b [<-|Ha] Hb.
      * apply Hall, in_or_app. right. exact Hb.
      * apply H2; assumption.
Qed.

Lemma sort_desc_sort_by (l : list (string * nat)) :
  pd.sort_desc l = sort_by (fun e e' => (snd e' <=? snd e)%nat) l.
Proof.
  induction l as [|e l IH]; simpl; [reflexivity|]. rewrite IH.
  generalize (sort_by (fun e0 e' => (snd e' <=? snd e0)%nat) l).
  intros s. induction s as [|e' s IHs]; simpl; [reflexivity|].
  rewrite IHs. reflexivity.
Qed.

(* ------------------------------------------------------------------ *)
(** ** Distinct values of a column *)

Lemma unique_In (col : list string) (c : string) :
  In c (pdx.unique col) <-> In c col.
Proof.
  unfold pdx.unique. rewrite drop_duplicates_drop_from.
  rewrite (@drop_from_In _ _ String.eqb_eq). simpl. tauto.
Qed.

Lemma unique_NoDup (col : list string) : NoDup (pdx.unique col).
Proof.
  unfold pdx.unique. rewrite drop_duplicates_drop_from.
  apply (@drop_from_NoDup _ _ String.eqb_eq).
Qed.

(* ------------------------------------------------------------------ *)
(** ** The installs chart *)

Lemma larger_first_total (a b : float64) :
  pdx.larger_first a b = true \/ pdx.larger_first b a = true.
Proof.
  unfold pdx.larger_first. destruct a, b; simpl; auto.
  unfold Qc_leb. destruct (Qle_bool q0 q) eqn:E; [auto|]. right.
  apply Qle_bool_iff. apply Qlt_le_weak. apply Qnot_le_lt. intros H.
  apply Qle_bool_iff in H. congruence.
Qed.

Lemma larger_first_trans (a b c : float64) :
  pdx.larger_first a b = true -> pdx.larger_first b c = true ->
  pdx.larger_first a c = true.
Proof.
  unfold pdx.larger_first. destruct a, b, c; simpl; try congruence.
  rewrite !Qc_leb_le. intros H1 H2. exact (Qcle_trans _ _ _ H2 H1).
Qed.

Lemma firstn_length_min (A : Type) (n : nat) (l : list A) :
  List.length (firstn n l) = Nat.min n (List.length l).
Proof. apply length_firstn. Qed.

Lemma StronglySorted_weaken (A : Type) (R R' : A -> A -> Prop)
  (l : list A) :
  (forall a b, In a l -> In b l -> R a b -> R' a b) ->
  StronglySorted R l -> StronglySorted R' l.
Proof.
  intros Himp H. induction H as [|a l Hl IH Hall]; constructor.
  - apply IH. intros x y Hx Hy. apply Himp; right; assumption.
  - rewrite Forall_forall in *. intros x Hx.
    apply Himp; [left; reflexivity | right; exact Hx | apply Hall, Hx].
Qed.

(** X13: the installs chart shows the filtered table's ten rows of largest
    installs, or all of them when there are fewer, in decreasing order: no
    row left out has more installs than a row shown. *)
Theorem top_apps_are_the_largest :
  forall (w : Widgets) (df : list Row),
    List.length (top_apps (apply_filters w df))
    = Nat.min 10 (List.length (apply_filters w df))
    /\ StronglySorted (fun a b => fle (Installs b) (Installs a) = true)
         (top_apps (apply_filters w df))
    /\ exists rest,
         Permutation (apply_filters w df)
           (top_apps (apply_filters w df) ++ rest)
         /\ forall a b, In a (top_apps (apply_filters w df)) -> In b rest ->
                        fle (Installs b) (Installs a) = true.
Proof.
  intros w df. unfold top_apps, pdx.nlargest.
  set (fdf := apply_filters w df).
  set (before := fun a b : Row =>
                   pdx.larger_first (Installs a) (Installs b)).
  set (S := sort_by before fdf).
  assert (HP : Permutation fdf S) by apply sort_by_Permutation.
  assert (HS : StronglySorted (fun a b => before a b = true) S).
  { apply sort_by_StronglySorted.
    - intros a b. apply larger_first_total.
    - intros a b c. apply larger_first_trans. }
  assert (Hna : forall r, In r S -> Installs r <> NaN).
  { intros r Hr. apply (Permutation_in _ (Permutation_sym HP)) in Hr.
    apply apply_filters_In in Hr. destruct Hr as [_ Hr].
    apply matches_ranges in Hr. tauto. }
  assert (Hfle : forall a b, In b S -> before a b = true ->
                   fle (Installs b) (Installs a) = true).
  { intros a b Hb H. unfold before, pdx.larger_first in H.
    apply Hna in Hb. destruct (Installs b); simpl in *; congruence. }
  assert (Hfirst : forall x, In x (firstn 10 S) -> In x S).
  { intros x Hx. rewrite <- (firstn_skipn 10 S). apply in_or_app. auto. }
  assert (Hskip : forall x, In x (skipn 10 S) -> In x S).
  { intros x Hx. rewrite <- (firstn_skipn 10 S). apply in_or_app. auto. }
  rewrite <- (firstn_skipn 10 S) in HS.
  apply StronglySorted_app in HS. destruct HS as [HS1 HS2].
  split; [|split].
  - rewrite firstn_length_min. f_equal.
    symmetry. apply Permutation_length, HP.
  - revert HS1. apply StronglySorted_weaken.
    intros a b _ Hb. apply Hfle, Hfirst, Hb.
  - exists (skipn 10 S). split.
    + rewrite firstn_skipn. exact HP.
    + intros a b Ha Hb. apply Hfle; [apply Hskip, Hb|].
      apply HS2; assumption.
Qed.

(* ------------------------------------------------------------------ *)
(** ** The category chart *)

Lemma value_counts_Permutation (col : list string) :
  Permutation
    (map (fun k => (k, count_label k col)) (pdx.unique col))
    (pd.value_counts col).
Proof.
  unfold pd.value_counts. rewrite sort_desc_sort_by, tally_spec.
  apply sort_by_Permutation.
Qed.

Lemma count_label_positive (k : string) (col : list string) :
  (0 < count_label k col)%nat <-> In k col.
Proof.
  split; [|apply count_label_present].
  intros H. destruct (in_dec string_dec k col) as [Hin|Hin]; [exact Hin|].
  rewrite (@count_label_absent k col Hin) in H. lia.
Qed.

(** X14: [value_counts] lists every category of a table exactly once, with
    the number of rows that carry it, in order of decreasing count; the
    chart keeps the first ten entries, so no category left out has more
    rows than a category shown. *)
Theorem category_counts_are_exact :
  forall fdf : list Row,
    (forall c n,
        In (c, n) (pd.value_counts (map Category fdf)) <->
        (0 < n)%nat /\ n = category_count c fdf)
    /\ NoDup (map fst (pd.value_counts (map Category fdf)))
    /\ StronglySorted (fun e e' => (snd e' <= snd e)%nat)
         (pd.value_counts (map Category fdf))
    /\ List.length (category_counts fdf)
       = Nat.min 10 (List.length (pd.value_counts (map Category fdf)))
    /\ exists rest,
         pd.value_counts (map Category fdf) = category_counts fdf ++ rest
         /\ forall e e', In e (category_counts fdf) -> In e' rest ->
                         (snd e' <= snd e)%nat.
Proof.
  intros fdf. set (col := map Category fdf).
  pose proof (value_counts_Permutation col) as HP.
  assert (HS : StronglySorted (fun e e' => (snd e' <= snd e)%nat)
                 (pd.value_counts col)).
  { unfold pd.value_counts. rewrite sort_desc_sort_by.
    apply StronglySorted_weaken
      with (R := fun e e' : string * nat => (snd e' <=? snd e)%nat = true).
    - intros a b _ _ H. apply Nat.leb_le, H.
    - apply sort_by_StronglySorted.
      + intros a b. rewrite !Nat.leb_le. lia.
      + intros a b c. rewrite !Nat.leb_le. lia. }
  split; [|split; [|split; [|split]]].
  - intros c n. rewrite category_count_label. fold col. split.
    + intros H. apply (Permutation_in _ (Permutation_sym HP)) in H.
      apply in_map_iff in H. destruct H as (k & E & Hk).
      injection E as -> <-. apply (proj1 (unique_In col c)) in Hk.
      split; [apply count_label_present, Hk | reflexivity].
    + intros [Hpos ->]. apply (Permutation_in _ HP).
      apply in_map_iff. exists c. split; [reflexivity|].
      apply unique_In, count_label_positive, Hpos.
  - apply (Permutation_NoDup (Permutation_map fst HP)).
    rewrite map_map. simpl. rewrite map_id. apply unique_NoDup.
  - exact HS.
  - unfold category_counts, pdx.head. fold col. apply length_firstn.
  - unfold category_counts, pdx.head. fold col.
    exists (skipn 10 (pd.value_counts col)).
    split; [symmetry; apply firstn_skipn|].
    rewrite <- (firstn_skipn 10 (pd.value_counts col)) in HS.
    apply StronglySorted_app in HS. destruct HS as [_ HS].
    intros e e' He He'. apply HS; assumption.
Qed.

(* ------------------------------------------------------------------ *)
(** ** The price slider *)

Lemma fle_flt_trans (a b c : float64) :
  fle a b = true -> flt b c = true -> fle a c = true.
Proof. intros H1 H2. exact (fle_trans _ _ _ H1 (flt_fle _ _ H2)). Qed.

(** X17: on the normalized table the price slider's initial upper bound,
    [min(50.0, max_price)], cuts exactly like 50: a row lies under it
    exactly when its price is at most 50. *)
Theorem default_price_range_cuts_at_fifty :
  forall (has_Size : bool) (csv : list RawRow) (r : Row),
    In r (load_and_transform_data has_Size csv) ->
    fst (default_price_range (load_and_transform_data has_Size csv)) = of_Z 0
    /\ fle (Price r)
           (snd (default_price_range (load_and_transform_data has_Size csv)))
       = fle (Price r) (of_Z 50).
Proof.
  intros has_Size csv r Hr. split; [reflexivity|].
  set (df := load_and_transform_data has_Size csv) in *.
  assert (Hna : forall v, In v (map Price df) -> v <> NaN).
  { intros v Hv. apply in_map_iff in Hv. destruct Hv as (x & <- & Hx).
    apply load_and_transform_data_In in Hx. destruct Hx as [Hc _].
    apply complete_iff in Hc. tauto. }
  assert (Hmax : fle (Price r) (max_price df) = true).
  { apply max_ge; [exact Hna | apply in_map, Hr]. }
  unfold default_price_range, py.min2. cbn [snd].
  destruct (flt (max_price df) (of_Z 50)) eqn:E; [|reflexivity].
  rewrite Hmax. symmetry. exact (fle_flt_trans _ _ _ Hmax E).
Qed.

Lemma default_price_range_cuts_at_fifty_witness :
  fle (Price (transform_row true Sample.chess))
      (snd (default_price_range (load_and_transform_data true Sample.csv)))
  = fle (Price (transform_row true Sample.chess)) (of_Z 50).
Proof.
  apply (@default_price_range_cuts_at_fifty true Sample.csv).
  vm_compute. right. left. reflexivity.
Defined.

(* ------------------------------------------------------------------ *)
(** ** The Free/Paid chart *)

Lemma count_label_Type (t : string) (fdf : list Row) :
  count_label t (map Type_ fdf)
  = List.length (filter (fun r => (Type_ r =? t)%string) fdf).
Proof.
  unfold count_label. induction fdf as [|r fdf IH]; simpl; [reflexivity|].
  rewrite (String.eqb_sym t (Type_ r)).
  destruct (Type_ r =? t)%string; simpl; rewrite IH; reflexivity.
Qed.

(** X18: the Free/Paid chart of a filtered normalized table has no slice
    but Free and Paid, each at most once, and their sizes are the Free and
    the Paid count of the selection. *)
Theorem free_vs_paid_slices :
  forall (has_Size : bool) (csv : list RawRow) (w : Widgets),
    let fdf := apply_filters w (load_and_transform_data has_Size csv) in
    NoDup (map fst (pd.value_counts (map Type_ fdf)))
    /\ forall t n,
         In (t, n) (pd.value_counts (map Type_ fdf)) <->
         (0 < n)%nat
         /\ ((t = "Free"%string /\ n = free_apps fdf)
             \/ (t = "Paid"%string /\ n = paid_apps fdf)).
Proof.
  intros has_Size csv w fdf.
  pose proof (value_counts_Permutation (map Type_ fdf)) as HP.
  assert (HT : forall t, In t (map Type_ fdf) ->
                 t = "Free"%string \/ t = "Paid"%string).
  { intros t Ht. apply in_map_iff in Ht. destruct Ht as (r & <- & Hr).
    apply apply_filters_In in Hr. destruct Hr as [Hr _].
    exact (load_and_transform_data_Type _ _ _ Hr). }
  assert (HF : count_label "Free" (map Type_ fdf) = free_apps fdf).
  { rewrite count_label_Type. unfold free_apps.
    rewrite boolean_index_map. reflexivity. }
  assert (HPd : count_label "Paid" (map Type_ fdf) = paid_apps fdf).
  { rewrite count_label_Type. unfold paid_apps.
    rewrite boolean_index_map. reflexivity. }
  split.
  - apply (Permutation_NoDup (Permutation_map fst HP)).
    rewrite map_map. simpl. rewrite map_id. apply unique_NoDup.
  - intros t n. split.
    + intros H. apply (Permutation_in _ (Permutation_sym HP)) in H.
      apply in_map_iff in H. destruct H as (k & E & Hk).
      injection E as -> <-.
      apply (proj1 (unique_In (map Type_ fdf) t)) in Hk.
      split; [apply count_label_present, Hk|].
      destruct (HT t Hk) as [-> | ->]; [left | right]; auto.
    + intros [Hpos Hcase]. apply (Permutation_in _ HP).
      apply in_map_iff. exists t. split.
      * destruct Hcase as [[-> ->] | [-> ->]]; congruence.
      * apply unique_In, count_label_positive.
        destruct Hcase as [[-> ->] | [-> ->]]; congruence.
Qed.
